(** * universal-webpack: server-side tuning of a Webpack configuration

    A shallow embedding of [source/server configuration.js]: the
    [is_external] predicate installed in [configuration.externals], and
    the rewriting of [configuration.module.loaders] that replaces
    [style-loader] by [fake-style-loader].

    JavaScript strings are modelled as [string] (one [ascii] per code
    unit), string positions as [Z] (so that the [-1] of [indexOf] is at
    hand), objects used as maps as [gmap], arrays as [list] and a [throw]
    as the [Throw] constructor of [result]. *)

From Stdlib Require Import ZArith Strings.String Strings.Ascii List Bool Lia.
From stdpp Require Import base option list strings pretty gmap.

Open Scope string_scope.
Open Scope list_scope.
Open Scope Z_scope.

(** ** JavaScript string primitives *)

Module JsString.

(** [s.startsWith(p)], the test behind [indexOf]. *)
Fixpoint has_prefix (p s : string) : bool :=
  match p, s with
  | EmptyString, _ => true
  | String _ _, EmptyString => false
  | String a p', String b s' => if Ascii.eqb a b then has_prefix p' s' else false
  end.

(** [s.indexOf(needle)] scanning from position [i] of the original
    string: the first position where [needle] occurs, or [-1]. *)
Fixpoint indexOf_from (needle s : string) (i : Z) : Z :=
  if has_prefix needle s then i
  else match s with
       | EmptyString => -1
       | String _ s' => indexOf_from needle s' (i + 1)
       end.

Definition indexOf (s needle : string) : Z := indexOf_from needle s 0.

(** [s.lastIndexOf(needle)]: the last position where [needle] occurs,
    or [-1]; [found] carries the latest occurrence seen so far. *)
Fixpoint lastIndexOf_from (needle s : string) (i found : Z) : Z :=
  let found' := if has_prefix needle s then i else found in
  match s with
  | EmptyString => found'
  | String _ s' => lastIndexOf_from needle s' (i + 1) found'
  end.

Definition lastIndexOf (s needle : string) : Z := lastIndexOf_from needle s 0 (-1).

Definition str_length (s : string) : Z := Z.of_nat (String.length s).

(** The clamping of an index argument of [substring] to [0 .. length]. *)
Definition clamp (s : string) (i : Z) : Z := Z.min (Z.max i 0) (str_length s).

(** [s.substring(from, to)]: both arguments are clamped and swapped
    when [from > to]. *)
Definition substring (s : string) (from to : Z) : string :=
  let a := clamp s from in
  let b := clamp s to in
  let lo := Z.min a b in
  let hi := Z.max a b in
  String.substring (Z.to_nat lo) (Z.to_nat (hi - lo)) s.

(** [s.substring(from)]. *)
Definition substring_from (s : string) (from : Z) : string :=
  substring s from (str_length s).

(** [s.split(c)] for a separator of one character: [acc] holds, in
    reverse, the characters of the piece being read. *)
Fixpoint split_from (c : ascii) (s : string) (acc : string) : list string :=
  match s with
  | EmptyString => [String.rev acc]
  | String a s' =>
      if Ascii.eqb a c then String.rev acc :: split_from c s' EmptyString
      else split_from c s' (String a acc)
  end.

Definition split (s : string) (c : ascii) : list string := split_from c s EmptyString.

(** The code units of a string. *)
Definition chars (s : string) : list ascii := String.list_ascii_of_string s.

(** The part of [s] in front of the first [c], all of [s] when [c]
    does not occur: what the source obtains with [indexOf] and
    [substring], written by recursion on the string. *)
Fixpoint before (c : ascii) (s : string) : string :=
  match s with
  | EmptyString => EmptyString
  | String a s' => if Ascii.eqb a c then EmptyString else String a (before c s')
  end.

End JsString.

(** ** The helpers imported from [./helpers] *)

Module Helpers.

(** Modelled from the spec: [starts_with] of [./helpers], which is not
    among the sources; the spec reads it as "[request] starts with
    [pattern + "/"]". *)
Definition starts_with (s p : string) : bool := JsString.has_prefix p s.

(** Modelled from the spec: [ends_with] of [./helpers], which is not
    among the sources; the spec reads it as "a trailing [-loader] suffix
    if present". *)
Definition ends_with (s p : string) : bool :=
  JsString.has_prefix (String.rev p) (String.rev s).

End Helpers.

(** ** Results of code that may throw *)

Inductive result (A : Type) : Type :=
| Ok (a : A)
| Throw (message : string).
Arguments Ok {A} a.
Arguments Throw {A} message.

Definition bind {A B : Type} (r : result A) (k : A -> result B) : result B :=
  match r with
  | Ok a => k a
  | Throw m => Throw m
  end.

Notation "'let*' x := r 'in' k" := (bind r (fun x => k))
  (at level 10, x name, r at level 100, k at level 200).

(** [for (x of xs) body] where [body] may throw: the first throw ends
    the loop. *)
Fixpoint for_each {A B : Type} (body : A -> result B) (xs : list A) : result (list B) :=
  match xs with
  | [] => Ok []
  | x :: xs' =>
      let* y := body x in
      let* ys := for_each body xs' in
      Ok (y :: ys)
  end.

(** ** [is_external]: is a required dependency left to the runtime? *)

(** An element of [settings.exclude_from_externals]: a string, a
    [RegExp], or a value of any other type ([typeof] not ['string'] and
    not an instance of [RegExp]). *)
Inductive exclusion_pattern (RegExp Other : Type) : Type :=
| PString (s : string)
| PRegExp (re : RegExp)
| POther (v : Other).
Arguments PString {RegExp Other} s.
Arguments PRegExp {RegExp Other} re.
Arguments POther {RegExp Other} v.

(** [webpack_configuration.resolve]; only [alias] is read. *)
Record resolve_options : Type := { alias : option (gmap string string) }.

(** The part of the Webpack configuration that [is_external] reads. *)
Record webpack_configuration : Type := { resolve : option resolve_options }.

(** The part of [settings] that [is_external] reads. *)
Record settings (RegExp Other : Type) : Type :=
  { exclude_from_externals : option (list (exclusion_pattern RegExp Other)) }.
Arguments exclude_from_externals {RegExp Other} _.
Arguments Build_settings {RegExp Other} _.

(** [Object.keys(o)]: the own keys of the object (the loop below does
    not depend on their order). *)
Definition Object_keys {V : Type} (o : gmap string V) : list string := (map_to_list o).*1.

Section Externals.

(** [validate_npm_package_path(name).validForNewPackages], from the
    package [validate-npm-package-name]. *)
Context (validForNewPackages : string -> bool).

(** [regexp.test(request)], for regular expressions whose answer does
    not depend on earlier calls (no [g] or [y] flag), and the text that a
    template literal gives for a pattern of another type. *)
Context {RegExp Other : Type}.
Context (regexp_test : RegExp -> string -> bool).
Context (template_text : Other -> string).

(** Lines 205-209: the request up to its first slash. *)
Definition package_name_of (request : string) : string :=
  let package_name := request in
  if 0 <=? JsString.indexOf package_name "/"
  then JsString.substring package_name 0 (JsString.indexOf package_name "/")
  else package_name.

(** Lines 225-233: [Some b] when the loop executes [return b], [None]
    when it runs to its end. *)
Fixpoint alias_loop (package_name : string) (aliases : list string) : option bool :=
  match aliases with
  | [] => None
  | alias :: aliases' =>
      if String.eqb package_name alias then Some false
      else alias_loop package_name aliases'
  end.

Definition invalid_exclusion_pattern (v : Other) : string :=
  "Invalid exclusion pattern: " +:+ template_text v
    +:+ ". Only strings and regular expressions are allowed.".

(** Lines 239-264: as [alias_loop], and the loop may throw. *)
Fixpoint exclusion_loop (request : string)
    (patterns : list (exclusion_pattern RegExp Other)) : result (option bool) :=
  match patterns with
  | [] => Ok None
  | exclusion_pattern :: patterns' =>
      match exclusion_pattern with
      | PString p =>
          if String.eqb request p || Helpers.starts_with request (p +:+ "/")
          then Ok (Some false)
          else exclusion_loop request patterns'
      | PRegExp regexp =>
          if regexp_test regexp request then Ok (Some false)
          else exclusion_loop request patterns'
      | POther v => Throw (invalid_exclusion_pattern v)
      end
  end.

Definition is_external (request : string) (webpack_configuration : webpack_configuration)
    (settings : settings RegExp Other) : result bool :=
  let package_name := package_name_of request in
  if negb (validForNewPackages package_name) then Ok false
  else
    let by_alias :=
      match resolve webpack_configuration with
      | Some r =>
          match alias r with
          | Some table => alias_loop package_name (Object_keys table)
          | None => None
          end
      | None => None
      end in
    match by_alias with
    | Some b => Ok b
    | None =>
        match exclude_from_externals settings with
        | Some patterns =>
            let* excluded := exclusion_loop request patterns in
            match excluded with
            | Some b => Ok b
            | None => Ok true
            end
        | None => Ok true
        end
    end.

End Externals.

(** ** Loaders *)

(** An element of a [loaders] array: a loader string such as
    ["css-loader?modules=true"], or an object with [loader] and [query].

    Modelled from the spec: [is_object] of [./helpers], which is not among
    the sources, tells "a structured object" from a string; here it is the
    choice of constructor. *)
Inductive loader_entry (Query : Type) : Type :=
| LoaderString (s : string)
| LoaderObject (loader : string) (query : option Query).
Arguments LoaderString {Query} s.
Arguments LoaderObject {Query} loader query.

(** The "loader info structure" built by [parse_loader]; an absent
    [query] is [undefined]. *)
Record loader_info (Query : Type) : Type :=
  { name : string; query : option Query }.
Arguments name {Query} _.
Arguments query {Query} _.
Arguments Build_loader_info {Query} _ _.

(** An element of [configuration.module.loaders]: the fields [loader]
    and [loaders], and the fields this code neither reads nor writes
    ([test], [include], [exclude], ...). *)
Record module_loader (Query : Type) : Type :=
  { loader : option string;
    loaders : option (list (loader_entry Query));
    other_fields : gmap string string }.
Arguments loader {Query} _.
Arguments loaders {Query} _.
Arguments other_fields {Query} _.
Arguments Build_module_loader {Query} _ _ _.

(** How an iteration of the [for] loop over the module loaders leaves
    its first block: by [continue], or by falling through. *)
Inductive step (A : Type) : Type :=
| Continue (a : A)
| Next (a : A).
Arguments Continue {A} a.
Arguments Next {A} a.

(** [array.indexOf(x)], with [-1] when [x] is not an element. Objects
    are compared by their contents; for the one use below, where [x] is
    the first element passing a test that only reads contents, identity
    finds the same position. *)
Fixpoint array_indexOf_from {A : Type} `{EqDecision A} (xs : list A) (x : A) (i : Z) : Z :=
  match xs with
  | [] => -1
  | y :: xs' => if decide (y = x) then i else array_indexOf_from xs' x (i + 1)
  end.

Definition array_indexOf {A : Type} `{EqDecision A} (xs : list A) (x : A) : Z :=
  array_indexOf_from xs x 0.

(** [array[i] = x] for a position inside the array; the only assignment
    of the source uses a position that [indexOf] found (see
    [array_indexOf_in_range]). *)
Definition array_set {A : Type} (xs : list A) (i : Z) (x : A) : list A :=
  if (0 <=? i) && (i <? Z.of_nat (length xs)) then <[Z.to_nat i := x]> xs else xs.

#[global] Instance loader_entry_eq_dec {Query : Type} `{EqDecision Query} :
  EqDecision (loader_entry Query).
Proof. solve_decision. Defined.

Section Loaders.

(** [querystring.parse] and [querystring.stringify] of Node.js. *)
Context {Query : Type} `{EqDecision Query}.
Context (querystring_parse : string -> Query).
Context (querystring_stringify : Query -> string).

(** Lines 151-179. In the string branch [name] is reassigned before
    the query is cut out of it, as in the source. *)
Definition parse_loader (loader : loader_entry Query) : loader_info Query :=
  match loader with
  | LoaderObject l q => {| name := l; query := q |}
  | LoaderString s =>
      let name := s in
      if 0 <=? JsString.indexOf name "?" then
        let name := JsString.substring name 0 (JsString.indexOf name "?") in
        let query :=
          querystring_parse
            (JsString.substring_from name (JsString.indexOf name "?" + 1)) in
        {| name := name; query := Some query |}
      else {| name := name; query := None |}
  end.

(** Lines 182-185; a query object is truthy, [undefined] is not. *)
Definition stringify_loader (loader : loader_info Query) : string :=
  name loader +:+
    match query loader with
    | Some q => "?" +:+ querystring_stringify q
    | None => ""
    end.

(** Lines 188-198. *)
Definition is_style_loader (loader : loader_entry Query) : bool :=
  let name := name (parse_loader loader) in
  let name :=
    if Helpers.ends_with name "-loader"
    then JsString.substring name 0 (JsString.lastIndexOf name "-loader")
    else name in
  String.eqb name "style".

(** The truth value of an element of [loaders]: only the empty string
    is falsy. *)
Definition truthy (loader : loader_entry Query) : bool :=
  match loader with
  | LoaderString "" => false
  | _ => true
  end.

(** Lines 100-108: the string stored in the place of [style_loader],
    [fake-style-loader] with the query that [parse_loader] reports. *)
Definition replacement_of (style_loader : loader_entry Query) : loader_entry Query :=
  let fake_style_loader := parse_loader style_loader in
  let fake_style_loader :=
    {| name := "fake-style-loader"; query := query fake_style_loader |} in
  LoaderString (stringify_loader fake_style_loader).

(** Lines 96-109, on the array [loader.loaders]. *)
Definition replace_style_loader (loaders : list (loader_entry Query)) :
    list (loader_entry Query) :=
  match head (List.filter is_style_loader loaders) with
  | Some style_loader =>
      if truthy style_loader then
        array_set loaders (array_indexOf loaders style_loader)
          (replacement_of style_loader)
      else loaders
  | None => loaders
  end.

(** Lines 75-93: [loader] is turned into [loaders]. An empty string
    and [undefined] are the falsy values of [loader.loader]; an array,
    even an empty one, is truthy. *)
Definition convert_loader (l : module_loader Query) : result (step (module_loader Query)) :=
  match loaders l with
  | Some _ => Ok (Next l)
  | None =>
      match loader l with
      | None | Some "" =>
          Throw "No webpack loader specified for this `module.loaders` element"
      | Some s =>
          if 0 <=? JsString.indexOf s "extract-text-webpack-plugin/loader.js"
          then Ok (Continue l)
          else Ok (Next {| loader := None;
                           loaders := Some (List.map LoaderString (JsString.split s "!"));
                           other_fields := other_fields l |})
      end
  end.

(** Lines 72-110: one iteration of the loop. *)
Definition tune_loader (l : module_loader Query) : result (module_loader Query) :=
  let* converted := convert_loader l in
  match converted with
  | Continue l' => Ok l'
  | Next l' =>
      match loaders l' with
      | Some chain =>
          Ok {| loader := loader l';
                loaders := Some (replace_style_loader chain);
                other_fields := other_fields l' |}
      | None => Throw "TypeError: Cannot read property 'filter' of undefined"
      end
  end.

(** The loop over [configuration.module.loaders]. *)
Definition tune_loaders (module_loaders : list (module_loader Query)) :
    result (list (module_loader Query)) :=
  for_each tune_loader module_loaders.

End Loaders.

(** ** Instances used to run the definitions *)

(** Node's [querystring] on the strings met here: keys and values
    without characters that are escaped, and no key twice. *)
Module Node.

Abbreviation Query := (list (string * string)).

Definition parse_pair (piece : string) : string * string :=
  if 0 <=? JsString.indexOf piece "="
  then (JsString.substring piece 0 (JsString.indexOf piece "="),
        JsString.substring_from piece (JsString.indexOf piece "=" + 1))
  else (piece, "").

Definition querystring_parse (s : string) : Query :=
  List.map parse_pair
    (List.filter (fun piece => negb (String.eqb piece "")) (JsString.split s "&")).

Definition join_pair (kv : string * string) : string := kv.1 +:+ "=" +:+ kv.2.

Fixpoint join (sep : string) (pieces : list string) : string :=
  match pieces with
  | [] => ""
  | [piece] => piece
  | piece :: pieces' => piece +:+ sep +:+ join sep pieces'
  end.

Definition querystring_stringify (q : Query) : string :=
  join "&" (List.map join_pair q).

End Node.

(** Instances for the parameters of [is_external]: a validity test that
    refuses the empty name and names that start with a dot or a slash, a
    regular expression that is a literal text to be found, and integers
    as the patterns of another type. *)
Module Sample.

Definition validForNewPackages (name : string) : bool :=
  negb (String.eqb name "")
  && negb (JsString.has_prefix "." name)
  && negb (JsString.has_prefix "/" name).

Definition regexp_test (literal request : string) : bool :=
  0 <=? JsString.indexOf request literal.

Definition template_text (v : Z) : string := pretty v.

End Sample.

(** ** The words of the specification *)

(** "The substring of the request up to the first [/], or the whole
    request if there is no [/]". *)
Definition is_package_name_of (package_name request : string) : Prop :=
  ("/"%char ∉ JsString.chars package_name)
  ∧ (request = package_name ∨ ∃ rest, request = package_name +:+ "/" +:+ rest).

(** "Some key of the configuration's alias table is exactly equal to the
    package name". *)
Definition aliased (c : webpack_configuration) (package_name : string) : Prop :=
  ∃ r table target,
    resolve c = Some r ∧ alias r = Some table ∧ table !! package_name = Some target.

(** "A string equal to [r], or a string [p] such that [r] starts with
    [p + "/"], or a regular expression that tests true against [r]"; a
    pattern of another type matches nothing. *)
Definition pattern_matches {RegExp Other : Type} (regexp_test : RegExp → string → bool)
    (request : string) (pattern : exclusion_pattern RegExp Other) : Prop :=
  match pattern with
  | PString p => request = p ∨ ∃ rest, request = p +:+ "/" +:+ rest
  | PRegExp regexp => regexp_test regexp request = true
  | POther _ => False
  end.

(** "A string or a regular expression". *)
Definition string_or_regexp {RegExp Other : Type}
    (pattern : exclusion_pattern RegExp Other) : Prop :=
  match pattern with
  | POther _ => False
  | _ => True
  end.

(** The loop over the exclusion patterns passes over [pattern] and goes
    on to the next one. *)
Definition passed_over {RegExp Other : Type} (regexp_test : RegExp → string → bool)
    (request : string) (pattern : exclusion_pattern RegExp Other) : Prop :=
  string_or_regexp pattern ∧ ¬ pattern_matches regexp_test request pattern.

(** "Substitution replaces each entry identified as a style loader at
    its original position, leaving every non-style entry unchanged", the
    replacement being the one that the source builds. *)
Definition substitute_each {Query : Type} (querystring_parse : string → Query)
    (querystring_stringify : Query → string) (chain : list (loader_entry Query)) :
    list (loader_entry Query) :=
  List.map
    (λ entry,
       if is_style_loader querystring_parse entry
       then replacement_of querystring_parse querystring_stringify entry
       else entry)
    chain.

(** The message of line 79. *)
Definition no_loader_message : string :=
  "No webpack loader specified for this `module.loaders` element".

(** A module loader without [loaders] and without a non-empty [loader]. *)
Definition without_loader {Query : Type} (l : module_loader Query) : Prop :=
  loaders l = None ∧ (loader l = None ∨ loader l = Some "").

(** "The loader string contains the marker substring". *)
Definition contains (s marker : string) : Prop :=
  ∃ front back, s = front +:+ marker +:+ back.

(** ** [configuration]: the function that tunes a whole configuration *)

(** [pieces.join(sep)] of an array of strings. *)
Definition array_join (pieces : list string) (sep : string) : string :=
  Node.join sep pieces.

(** What the function pushed onto [externals] does with the [callback]
    it is given: [callback(null, request)] or [callback()]. *)
Inductive callback_call : Type :=
| callback_null_request (request : string)
| callback_no_arguments.

(** An element of [configuration.externals]: an element given by the
    user, or a function of [(context, request, callback)], here from
    [context] and [request] to the call of [callback] it makes. *)
Inductive externals_item (External : Type) : Type :=
| GivenExternal (e : External)
| ExternalsFunction (f : string → string → result callback_call).
Arguments GivenExternal {External} e.
Arguments ExternalsFunction {External} f.

(** [plugin.constructor], as far as the code tells constructors apart. *)
Inductive plugin_constructor : Type :=
| HotModuleReplacementPlugin
| CommonsChunkPlugin
| LimitChunkCountPlugin
| OtherPlugin (constructor_name : string).

(** An element of [configuration.plugins]: a plugin given by the user,
    or [new webpack.optimize.LimitChunkCountPlugin({ maxChunks })]. *)
Inductive plugin (Instance : Type) : Type :=
| GivenPlugin (c : plugin_constructor) (instance : Instance)
| NewLimitChunkCountPlugin (maxChunks : Z).
Arguments GivenPlugin {Instance} c instance.
Arguments NewLimitChunkCountPlugin {Instance} maxChunks.

Definition constructor_of {Instance : Type} (p : plugin Instance) : plugin_constructor :=
  match p with
  | GivenPlugin c _ => c
  | NewLimitChunkCountPlugin _ => LimitChunkCountPlugin
  end.

(** [plugin.constructor !== c]. *)
Definition constructor_is_not {Instance : Type} (p : plugin Instance)
    (c : plugin_constructor) : bool :=
  match constructor_of p, c with
  | HotModuleReplacementPlugin, HotModuleReplacementPlugin => false
  | CommonsChunkPlugin, CommonsChunkPlugin => false
  | LimitChunkCountPlugin, LimitChunkCountPlugin => false
  | OtherPlugin n, OtherPlugin m => negb (String.eqb n m)
  | _, _ => true
  end.

(** An entry of Webpack: a file or an array of files, or an object of
    such under chunk names. *)
Inductive entry_item : Type :=
| EntryFile (file : string)
| EntryFiles (files : list string).

Inductive entry_point : Type :=
| EntrySingle (item : entry_item)
| EntryObject (chunks : gmap string entry_item).

(** [configuration.output]: the fields that are assigned, and the
    others. *)
Record output_options : Type :=
  { libraryTarget : option string;
    filename : option string;
    chunkFilename : option string;
    pathinfo : option bool;
    path : option string;
    other_output : gmap string string }.

(** The Webpack configuration as [configuration] reads and writes it.
    [output] and [module.loaders] are fields of every value of this type
    (without them the property accesses of the source raise a
    [TypeError]); [externals] and [plugins], when present, are arrays;
    [resolve] stands inside [for_is_external]. *)
Record configuration_object (Query External Instance : Type) : Type :=
  { context : option string;
    entry : option entry_point;
    target : option string;
    output : output_options;
    devtool : option string;
    externals : option (list (externals_item External));
    module_loaders : list (module_loader Query);
    plugins : option (list (plugin Instance));
    for_is_external : webpack_configuration }.
Arguments context {Query External Instance} _.
Arguments entry {Query External Instance} _.
Arguments target {Query External Instance} _.
Arguments output {Query External Instance} _.
Arguments devtool {Query External Instance} _.
Arguments externals {Query External Instance} _.
Arguments module_loaders {Query External Instance} _.
Arguments plugins {Query External Instance} _.
Arguments for_is_external {Query External Instance} _.
Arguments Build_configuration_object {Query External Instance} _ _ _ _ _ _ _ _ _.

(** The [settings] as [configuration] reads them: [settings.server.input],
    [settings.server.output], and the part that [is_external] reads. *)
Record universal_settings (RegExp Other : Type) : Type :=
  { server_input : string;
    server_output : string;
    for_externals : settings RegExp Other }.
Arguments server_input {RegExp Other} _.
Arguments server_output {RegExp Other} _.
Arguments for_externals {RegExp Other} _.
Arguments Build_universal_settings {RegExp Other} _ _ _.

(** The double quote, and the message of line 14. *)
Definition double_quote : string := String "034"%char EmptyString.

Definition context_is_missing : string :=
  "You must set " +:+ double_quote +:+ "context" +:+ double_quote
    +:+ " parameter in your Webpack configuration".

Section Configuration.

Context {Query RegExp Other External Instance : Type} `{EqDecision Query}.
Context (validForNewPackages : string → bool).
Context (regexp_test : RegExp → string → bool).
Context (template_text : Other → string).
Context (querystring_parse : string → Query).
Context (querystring_stringify : Query → string).

(** [path.basename(p, ext)], [path.extname(p)], [path.dirname(p)] and
    [path.resolve(from, to)] of Node.js. *)
Context (path_basename : string → string → string).
Context (path_extname : string → string).
Context (path_dirname : string → string).
Context (path_resolve : string → string → string).

(** Lines 58-68: the function pushed onto [externals]; it does not
    read [context]. *)
Definition externals_function (configuration : webpack_configuration)
    (settings : settings RegExp Other) (context request : string) : result callback_call :=
  let* external :=
    is_external validForNewPackages regexp_test template_text
      request configuration settings in
  if external then Ok (callback_null_request request)
  else Ok callback_no_arguments.

(** Lines 117-121: the test of the [filter] over the plugins. *)
Definition kept_plugin (p : plugin Instance) : bool :=
  constructor_is_not p HotModuleReplacementPlugin
  && constructor_is_not p CommonsChunkPlugin.

(** Lines 10-148. An absent or empty [context] is falsy.

    Modelled from the spec: [clone] of [./helpers], which is not among
    the sources, gives the copy that is then changed in place; a value of
    [configuration_object] is such a copy already. *)
Definition configuration
    (webpack_configuration : configuration_object Query External Instance)
    (settings : universal_settings RegExp Other) :
    result (configuration_object Query External Instance) :=
  match context webpack_configuration with
  | None | Some "" => Throw context_is_missing
  | Some the_context =>
      let configuration := webpack_configuration in
      let output_file_name :=
        path_basename (server_output settings)
          (path_extname (server_output settings)) in
      let new_entry := EntryObject {[ output_file_name := EntryFile (server_input settings) ]} in
      let new_output :=
        {| libraryTarget := Some "commonjs2";
           filename := Some "[name].js";
           chunkFilename := Some "[name].js";
           pathinfo := Some true;
           path := Some (path_resolve the_context (path_dirname (server_output settings)));
           other_output := other_output (output configuration) |} in
      let new_externals :=
        default [] (externals configuration)
          ++ [ExternalsFunction
                (externals_function (for_is_external configuration)
                   (for_externals settings))] in
      let* new_loaders :=
        tune_loaders querystring_parse querystring_stringify
          (module_loaders configuration) in
      let new_plugins := default [] (plugins configuration) in
      let new_plugins := List.filter kept_plugin new_plugins in
      let new_plugins := new_plugins ++ [NewLimitChunkCountPlugin 1] in
      Ok {| context := context configuration;
            entry := Some new_entry;
            target := Some "node";
            output := new_output;
            devtool := Some "source-map";
            externals := Some new_externals;
            module_loaders := new_loaders;
            plugins := Some new_plugins;
            for_is_external := for_is_external configuration |}
  end.

End Configuration.

(** Instances of the functions of [path] for paths without [.] and [..]
    components, used to run [configuration]: the text after the last
    slash without a given ending, the ending from the last dot, the text
    in front of the last slash, and one path put behind the other. *)
Module SamplePath.

Definition after_last_slash (p : string) : string :=
  JsString.substring_from p (JsString.lastIndexOf p "/" + 1).

Definition extname (p : string) : string :=
  let base := after_last_slash p in
  if 0 <? JsString.lastIndexOf base "."
  then JsString.substring_from base (JsString.lastIndexOf base ".")
  else "".

Definition basename (p ext : string) : string :=
  let base := after_last_slash p in
  if negb (String.eqb ext "") && negb (String.eqb ext base) && Helpers.ends_with base ext
  then JsString.substring base 0 (JsString.str_length base - JsString.str_length ext)
  else base.

Definition dirname (p : string) : string :=
  if 0 <? JsString.lastIndexOf p "/"
  then JsString.substring p 0 (JsString.lastIndexOf p "/")
  else if 0 =? JsString.lastIndexOf p "/" then "/" else ".".

Definition resolve (from to : string) : string :=
  if JsString.has_prefix "/" to then to
  else if String.eqb to "." then from
  else from +:+ "/" +:+ to.

End SamplePath.

(** A client-side configuration and settings to run [configuration] on. *)
Module SampleConfiguration.

Definition client : configuration_object Node.Query string unit :=
  {| context := Some "/project";
     entry := Some (EntrySingle (EntryFile "./src/client.js"));
     target := None;
     output :=
       {| libraryTarget := None;
          filename := Some "[name].[hash].js";
          chunkFilename := None;
          pathinfo := None;
          path := Some "/project/build/assets";
          other_output := {["publicPath" := "/assets/"]} |};
     devtool := Some "inline-eval";
     externals := Some [GivenExternal "jquery"];
     module_loaders :=
       [ {| loader := Some "babel-loader"; loaders := None;
            other_fields := {["test" := "js"]} |};
         {| loader := Some "style-loader!css-loader"; loaders := None;
            other_fields := {["test" := "css"]} |} ];
     plugins :=
       Some [GivenPlugin HotModuleReplacementPlugin ();
             GivenPlugin (OtherPlugin "DefinePlugin") ();
             GivenPlugin CommonsChunkPlugin ()];
     for_is_external :=
       {| resolve := Some {| alias := Some {["react" := "preact-compat"]} |} |} |}.

Definition settings : universal_settings string Z :=
  {| server_input := "./src/server.js";
     server_output := "build/server/server.js";
     for_externals := {| exclude_from_externals := Some [PString "lodash"] |} |}.

Definition tune :=
  configuration (External:=string) (Instance:=unit)
    Sample.validForNewPackages Sample.regexp_test Sample.template_text
    Node.querystring_parse Node.querystring_stringify
    SamplePath.basename SamplePath.extname SamplePath.dirname SamplePath.resolve.

(** The configuration that [tune client settings] returns, but for its
    [externals]. *)
Definition server (the_externals : list (externals_item string)) :
    configuration_object Node.Query string unit :=
  {| context := Some "/project";
     entry := Some (EntryObject {["server" := EntryFile "./src/server.js"]});
     target := Some "node";
     output :=
       {| libraryTarget := Some "commonjs2";
          filename := Some "[name].js";
          chunkFilename := Some "[name].js";
          pathinfo := Some true;
          path := Some "/project/build/server";
          other_output := {["publicPath" := "/assets/"]} |};
     devtool := Some "source-map";
     externals := Some the_externals;
     module_loaders :=
       [ {| loader := None; loaders := Some [LoaderString "babel-loader"];
            other_fields := {["test" := "js"]} |};
         {| loader := None;
            loaders := Some [LoaderString "fake-style-loader"; LoaderString "css-loader"];
            other_fields := {["test" := "css"]} |} ];
     plugins :=
       Some [GivenPlugin (OtherPlugin "DefinePlugin") ();
             NewLimitChunkCountPlugin 1];
     for_is_external :=
       {| resolve := Some {| alias := Some {["react" := "preact-compat"]} |} |} |}.

Definition the_function : string → string → result callback_call :=
  externals_function Sample.validForNewPackages Sample.regexp_test
    Sample.template_text (for_is_external client) (for_externals settings).

End SampleConfiguration.

(** * Properties *)

(** ** Strings *)

Module JsStringFacts.
Import JsString.

Lemma append_cons (a : ascii) (s rest : string) :
  String a s +:+ rest = String a (s +:+ rest).
Proof. reflexivity. Qed.

Lemma append_nil_l (s : string) : "" +:+ s = s.
Proof. reflexivity. Qed.

Lemma append_assoc (s t u : string) : (s +:+ t) +:+ u = s +:+ t +:+ u.
Proof.
  induction s as [|a s IH]; [done|]. rewrite !append_cons. by f_equal.
Qed.

Lemma has_prefix_nil (s : string) : has_prefix "" s = true.
Proof. by destruct s. Qed.

Lemma has_prefix_app (p s : string) : has_prefix p (p +:+ s) = true.
Proof.
  induction p as [|a p IH]; simpl; [done|].
  by rewrite Ascii.eqb_refl.
Qed.

Lemma has_prefix_inv (p s : string) :
  has_prefix p s = true → ∃ rest, s = p +:+ rest.
Proof.
  revert s. induction p as [|a p IH]; intros s Hp; simpl in *; [by exists s|].
  destruct s as [|b s]; [done|].
  destruct (Ascii.eqb_spec a b) as [->|]; [|done].
  destruct (IH _ Hp) as [rest ->]. by exists rest.
Qed.

Lemma has_prefix_iff (p s : string) :
  has_prefix p s = true ↔ ∃ rest, s = p +:+ rest.
Proof.
  split; [apply has_prefix_inv|]. intros [rest ->]. apply has_prefix_app.
Qed.

Lemma has_prefix_char (c a : ascii) (s : string) :
  has_prefix (String c "") (String a s) = Ascii.eqb c a.
Proof. simpl. by destruct (Ascii.eqb c a). Qed.

Lemma chars_cons (a : ascii) (s : string) : chars (String a s) = a :: chars s.
Proof. done. Qed.

Lemma before_app (c : ascii) (s : string) : ∃ rest, s = before c s +:+ rest.
Proof.
  induction s as [|a s [rest IH]]; simpl; [by exists ""|].
  destruct (Ascii.eqb a c); [by eexists|].
  exists rest. rewrite append_cons. by f_equal.
Qed.

Lemma before_notin (c : ascii) (s : string) : c ∉ chars s → before c s = s.
Proof.
  induction s as [|a s IH]; [done|].
  rewrite chars_cons, not_elem_of_cons. intros [Hne Hs]. cbn [before].
  destruct (Ascii.eqb_spec a c); [congruence|]. by rewrite IH.
Qed.

Lemma before_free (c : ascii) (s : string) : c ∉ chars (before c s).
Proof.
  induction s as [|a s IH]; cbn [before]; [apply not_elem_of_nil|].
  destruct (Ascii.eqb_spec a c); [apply not_elem_of_nil|].
  rewrite chars_cons, not_elem_of_cons. split; [congruence|done].
Qed.

Lemma before_app_sep (c : ascii) (p rest : string) :
  before c (p +:+ String c rest) = before c p.
Proof.
  induction p as [|a p IH]; [by rewrite append_nil_l; cbn; rewrite Ascii.eqb_refl|].
  rewrite append_cons. cbn [before].
  destruct (Ascii.eqb a c); [done|]. by rewrite IH.
Qed.

Lemma before_occurs (c : ascii) (s : string) :
  c ∈ chars s → ∃ rest, s = before c s +:+ String c rest.
Proof.
  induction s as [|a s IH]; [by intros ?%elem_of_nil|].
  rewrite chars_cons. intros Hin. cbn [before].
  destruct (Ascii.eqb_spec a c) as [->|Hne]; [by eexists|].
  apply elem_of_cons in Hin as [?|Hin]; [congruence|].
  destruct (IH Hin) as [rest Hrest]. exists rest. rewrite append_cons. by f_equal.
Qed.

Lemma str_length_before (c : ascii) (s : string) :
  0 ≤ str_length (before c s) ≤ str_length s.
Proof.
  unfold str_length. induction s as [|a s IH]; simpl; [lia|].
  destruct (Ascii.eqb a c); simpl; lia.
Qed.

(** [indexOf] of one character, read on the string. *)
Lemma indexOf_from_char (c : ascii) (s : string) (i : Z) :
  indexOf_from (String c "") s i =
    if decide (c ∈ chars s) then i + str_length (before c s) else -1.
Proof.
  revert i. induction s as [|a s IH]; intros i.
  - rewrite decide_False by apply not_elem_of_nil. done.
  - cbn [indexOf_from]. rewrite has_prefix_char, chars_cons.
    destruct (Ascii.eqb_spec c a) as [->|Hne].
    + rewrite decide_True by apply list_elem_of_here.
      simpl. rewrite Ascii.eqb_refl. unfold str_length. simpl. lia.
    + rewrite IH. cbn [before].
      destruct (Ascii.eqb_spec a c); [congruence|].
      destruct (decide (c ∈ chars s)) as [Hin|Hin].
      * rewrite decide_True by (by apply list_elem_of_further).
        unfold str_length. simpl. lia.
      * rewrite decide_False; [done|].
        rewrite not_elem_of_cons. done.
Qed.

Lemma indexOf_char (c : ascii) (s : string) :
  indexOf s (String c "") =
    if decide (c ∈ chars s) then str_length (before c s) else -1.
Proof. unfold indexOf. rewrite indexOf_from_char. by destruct (decide _). Qed.

Lemma String_substring_prefix (p rest : string) :
  String.substring 0 (String.length p) (p +:+ rest) = p.
Proof.
  induction p as [|a p IH]; simpl; [by destruct rest|]. by rewrite IH.
Qed.

Lemma substring_before (c : ascii) (s : string) :
  substring s 0 (str_length (before c s)) = before c s.
Proof.
  pose proof (str_length_before c s) as Hlen.
  unfold substring, clamp.
  rewrite (Z.max_l 0 0), (Z.min_l 0) by lia.
  rewrite (Z.max_l (str_length (before c s))), (Z.min_l (str_length (before c s))) by lia.
  rewrite Z.min_l, Z.max_r, Z.sub_0_r by lia.
  unfold str_length. rewrite Nat2Z.id. change (Z.to_nat 0) with 0%nat.
  destruct (before_app c s) as [rest Hrest].
  rewrite Hrest at 2. apply String_substring_prefix.
Qed.

Lemma substring_from_0 (s : string) : substring_from s 0 = s.
Proof.
  unfold substring_from, substring, clamp, str_length.
  rewrite (Z.max_l 0 0), (Z.min_l 0), Z.max_l, Z.min_l by lia.
  rewrite Z.min_l, Z.max_r, Z.sub_0_r, Nat2Z.id by lia.
  change (Z.to_nat 0) with 0%nat.
  induction s as [|a s IH]; simpl; [done|]. by rewrite IH.
Qed.

(** Cutting a string at its first [c] with [indexOf] and [substring],
    as the source does twice, gives [before c]. *)
Lemma cut_at_first (c : ascii) (s : string) :
  (if 0 <=? indexOf s (String c "")
   then substring s 0 (indexOf s (String c ""))
   else s) = before c s.
Proof.
  rewrite indexOf_char. pose proof (str_length_before c s).
  destruct (decide (c ∈ chars s)) as [Hin|Hin].
  - rewrite (proj2 (Z.leb_le _ _)) by lia. apply substring_before.
  - simpl. by rewrite before_notin.
Qed.

End JsStringFacts.

(** ** [is_external] *)

Section ExternalsFacts.
Import JsString JsStringFacts.

Context (validForNewPackages : string → bool).
Context {RegExp Other : Type}.
Context (regexp_test : RegExp → string → bool).
Context (template_text : Other → string).

Local Abbreviation classify :=
  (is_external validForNewPackages regexp_test template_text).
Local Abbreviation scan := (exclusion_loop regexp_test template_text).
Local Abbreviation pattern := (exclusion_pattern RegExp Other).
Local Abbreviation matches := (pattern_matches (Other:=Other) regexp_test).
Local Abbreviation passed := (passed_over (Other:=Other) regexp_test).

Lemma package_name_of_before (request : string) :
  package_name_of request = before "/" request.
Proof. apply (cut_at_first "/"). Qed.

(** [package_name_of] computes the package name of the specification. *)
Lemma package_name_of_spec (package_name request : string) :
  is_package_name_of package_name request ↔ package_name_of request = package_name.
Proof.
  rewrite package_name_of_before. split.
  - intros [Hfree [->|[rest ->]]]; [by apply before_notin|].
    change ("/" +:+ rest) with (String "/" rest).
    rewrite before_app_sep. by apply before_notin.
  - intros <-. split; [apply before_free|].
    destruct (decide ("/"%char ∈ chars request)) as [Hin|Hin].
    + right. apply before_occurs in Hin as [rest Hrest]. by exists rest.
    + left. by rewrite before_notin.
Qed.

Lemma alias_loop_elem (package_name : string) (aliases : list string) :
  package_name ∈ aliases → alias_loop package_name aliases = Some false.
Proof.
  induction aliases as [|a aliases IH]; [by intros ?%elem_of_nil|].
  intros Hin. cbn [alias_loop].
  destruct (String.eqb_spec package_name a) as [->|Hne]; [done|].
  apply elem_of_cons in Hin as [?|Hin]; [done|]. by apply IH.
Qed.

Lemma alias_loop_not_elem (package_name : string) (aliases : list string) :
  package_name ∉ aliases → alias_loop package_name aliases = None.
Proof.
  induction aliases as [|a aliases IH]; [done|].
  rewrite not_elem_of_cons. intros [Hne Hnin]. cbn [alias_loop].
  destruct (String.eqb_spec package_name a); [done|]. by apply IH.
Qed.

Lemma Object_keys_elem {V : Type} (o : gmap string V) (k : string) :
  k ∈ Object_keys o ↔ is_Some (o !! k).
Proof.
  unfold Object_keys. rewrite list_elem_of_fmap. split.
  - intros [[k' v] [-> Hin]]. apply elem_of_map_to_list in Hin. by exists v.
  - intros [v Hv]. exists (k, v). split; [done|]. by apply elem_of_map_to_list.
Qed.

Lemma is_external_invalid request c st :
  validForNewPackages (package_name_of request) = false →
  classify request c st = Ok false.
Proof. intros Hv. unfold is_external. by rewrite Hv. Qed.

Lemma is_external_aliased request c st :
  aliased c (package_name_of request) → classify request c st = Ok false.
Proof.
  intros (r & table & target & Hr & Ha & Hk). unfold is_external.
  destruct (validForNewPackages _); [|done]. cbn [negb].
  rewrite Hr, Ha, alias_loop_elem; [done|].
  apply Object_keys_elem. by exists target.
Qed.

(** Past the first two rules, the exclusion patterns decide. *)
Lemma is_external_exclusions request c st :
  validForNewPackages (package_name_of request) = true →
  ¬ aliased c (package_name_of request) →
  classify request c st =
    match exclude_from_externals st with
    | Some patterns =>
        let* excluded := scan request patterns in
        match excluded with
        | Some b => Ok b
        | None => Ok true
        end
    | None => Ok true
    end.
Proof.
  intros Hv Hna. unfold is_external. rewrite Hv. cbn [negb].
  destruct (resolve c) as [r|] eqn:Hr; [|done].
  destruct (alias r) as [table|] eqn:Ha; [|done].
  rewrite alias_loop_not_elem; [done|].
  rewrite Object_keys_elem. intros [target Hk]. apply Hna. by exists r, table, target.
Qed.

(** The test of a string pattern at lines 245-246. *)
Lemma string_pattern_test (request p : string) :
  String.eqb request p || Helpers.starts_with request (p +:+ "/") = true
  ↔ matches request (PString p).
Proof.
  unfold Helpers.starts_with. cbn [pattern_matches].
  rewrite orb_true_iff, String.eqb_eq, has_prefix_iff.
  split; (intros [?|[rest Hrest]]; [by left|right; exists rest]).
  - by rewrite Hrest, append_assoc.
  - by rewrite Hrest, append_assoc.
Qed.

Lemma scan_cons_passed request p patterns :
  passed request p → scan request (p :: patterns) = scan request patterns.
Proof.
  intros [Hty Hno]. destruct p as [p|regexp|v]; cbn [exclusion_loop].
  - destruct (_ || _) eqn:Htest; [|done].
    by apply string_pattern_test in Htest.
  - destruct (regexp_test regexp request) eqn:Htest; [|done]. by destruct Hno.
  - destruct Hty.
Qed.

Lemma scan_cons_matches request p patterns :
  matches request p → scan request (p :: patterns) = Ok (Some false).
Proof.
  intros Hm. destruct p as [p|regexp|v]; cbn [exclusion_loop].
  - apply string_pattern_test in Hm. by rewrite Hm.
  - cbn in Hm. by rewrite Hm.
  - destruct Hm.
Qed.

(** Whether a string or a regular expression matches can be decided. *)
Lemma matches_or_passed request (p : pattern) :
  string_or_regexp p → matches request p ∨ passed request p.
Proof.
  intros Hty. destruct p as [p|regexp|v]; [| |destruct Hty].
  - destruct (String.eqb request p || Helpers.starts_with request (p +:+ "/"))
      eqn:Htest.
    + left. by apply string_pattern_test.
    + right. split; [done|]. rewrite <-string_pattern_test. by rewrite Htest.
  - destruct (regexp_test regexp request) eqn:Htest; [by left|].
    right. split; [done|]. cbn. by rewrite Htest.
Qed.

Lemma scan_passed request patterns :
  Forall (passed request) patterns → scan request patterns = Ok None.
Proof.
  induction 1 as [|p patterns Hp _ IH]; [done|]. by rewrite scan_cons_passed.
Qed.

Lemma scan_matches request pre p post :
  Forall string_or_regexp pre → matches request p →
  scan request (pre ++ p :: post) = Ok (Some false).
Proof.
  intros Hpre Hm. induction Hpre as [|q pre Hq _ IH]; cbn [app].
  - by apply scan_cons_matches.
  - destruct (matches_or_passed request q Hq) as [Hqm|Hqp].
    + by apply scan_cons_matches.
    + by rewrite scan_cons_passed.
Qed.

Lemma scan_throws request pre v post :
  Forall (passed request) pre →
  scan request (pre ++ POther v :: post) =
    Throw (invalid_exclusion_pattern template_text v).
Proof.
  induction 1 as [|p pre Hp _ IH]; [done|].
  cbn [app]. by rewrite scan_cons_passed.
Qed.

(** The loop throws exactly when it arrives at a pattern that is neither
    a string nor a regular expression. *)
Lemma scan_throws_iff request patterns message :
  scan request patterns = Throw message ↔
  ∃ pre v post,
    patterns = pre ++ POther v :: post
    ∧ Forall (passed request) pre
    ∧ message = invalid_exclusion_pattern template_text v.
Proof.
  split.
  - induction patterns as [|p patterns IH]; [done|].
    destruct p as [p|regexp|v].
    + destruct (matches_or_passed request (PString p) I) as [Hm|Hp].
      * by rewrite scan_cons_matches.
      * rewrite scan_cons_passed by done.
        intros (pre & v & post & -> & Hpre & ->)%IH.
        exists (PString p :: pre), v, post. split_and!; [done|by constructor|done].
    + destruct (matches_or_passed request (PRegExp regexp) I) as [Hm|Hp].
      * by rewrite scan_cons_matches.
      * rewrite scan_cons_passed by done.
        intros (pre & v & post & -> & Hpre & ->)%IH.
        exists (PRegExp regexp :: pre), v, post. split_and!; [done|by constructor|done].
    + cbn [exclusion_loop]. intros [= <-]. by exists [], v, patterns.
  - intros (pre & v & post & -> & Hpre & ->). by apply scan_throws.
Qed.

Lemma aliased_or_not c package_name :
  aliased c package_name ∨ ¬ aliased c package_name.
Proof.
  destruct (resolve c) as [r|] eqn:Hr; cycle 1.
  { right. intros (? & ? & ? & ? & _). congruence. }
  destruct (alias r) as [table|] eqn:Htable; cycle 1.
  { right. intros (? & ? & ? & ? & ? & _). congruence. }
  destruct (table !! package_name) as [target|] eqn:Hk.
  - left. by exists r, table, target.
  - right. intros (? & ? & ? & ? & ? & ?). congruence.
Qed.

(** C1: a request whose package name (its part up to the first [/],
    or all of it when it has no [/]) is not valid for a new package is
    never external, whatever the alias table and the exclusion list. *)
Theorem invalid_package_name_is_internal package_name request c st :
  is_package_name_of package_name request →
  validForNewPackages package_name = false →
  classify request c st = Ok false.
Proof.
  intros Hname%package_name_of_spec Hinvalid.
  apply is_external_invalid. by rewrite Hname.
Qed.

(** C2: a request whose package name is a key of the alias table is
    never external, whatever the exclusion list and whether or not the
    name is valid. *)
Theorem aliased_package_name_is_internal package_name request c st :
  is_package_name_of package_name request →
  aliased c package_name →
  classify request c st = Ok false.
Proof.
  intros Hname%package_name_of_spec Haliased.
  apply is_external_aliased. by rewrite Hname.
Qed.

(** C3, amended: for a request with a valid package name that is not
    aliased, if a pattern of the exclusion list matches the full request
    (a string equal to it, a string [p] with the request starting with
    [p + "/"], a regular expression testing true on it) and every
    pattern in front of it is a string or a regular expression, then
    the request is not external. *)
Theorem excluded_request_is_internal package_name request c st pre p post :
  is_package_name_of package_name request →
  validForNewPackages package_name = true →
  ¬ aliased c package_name →
  exclude_from_externals st = Some (pre ++ p :: post) →
  Forall string_or_regexp pre →
  matches request p →
  classify request c st = Ok false.
Proof.
  intros <-%package_name_of_spec Hvalid Hna Hst Hpre Hm.
  rewrite is_external_exclusions, Hst by done.
  by rewrite scan_matches.
Qed.

(** C4, amended: a request with a valid package name that is not
    aliased is external when the exclusion list is absent, or holds only
    strings and regular expressions none of which matches the request;
    in particular when there are no aliases and no exclusions at all. *)
Theorem unmatched_request_is_external package_name request c st :
  is_package_name_of package_name request →
  validForNewPackages package_name = true →
  (¬ aliased c package_name →
   (∀ patterns, exclude_from_externals st = Some patterns →
                Forall (passed request) patterns) →
   classify request c st = Ok true)
  ∧ ((∀ r table, resolve c = Some r → alias r = Some table → table = ∅) →
     exclude_from_externals st = None ∨ exclude_from_externals st = Some [] →
     classify request c st = Ok true).
Proof.
  intros <-%package_name_of_spec Hvalid.
  assert (¬ aliased c (package_name_of request) →
          (∀ patterns, exclude_from_externals st = Some patterns →
                       Forall (passed request) patterns) →
          classify request c st = Ok true) as Hmain.
  { intros Hna Hpatterns. rewrite is_external_exclusions by done.
    destruct (exclude_from_externals st) as [patterns|]; [|done].
    by rewrite scan_passed by auto. }
  split; [done|]. intros Hempty Hnone. apply Hmain.
  - intros (r & table & target & Hr & Ha & Hk).
    rewrite (Hempty r table Hr Ha) in Hk. by rewrite lookup_empty in Hk.
  - intros patterns Hst. destruct Hnone as [Hnone|Hnone];
      rewrite Hnone in Hst; [done|]. injection Hst as <-. constructor.
Qed.

(** C5: [is_external] throws exactly when the package name is valid
    and not aliased and the loop over the exclusion list, having passed
    over strings and regular expressions that do not match, arrives at a
    pattern that is neither; the message holds the text of that pattern.
    Hence nothing is thrown, and the request is not external, when the
    package name is not valid, or is aliased, or a pattern matches with
    only strings and regular expressions in front of it. *)
Theorem invalid_pattern_throws_iff request c st :
  (∀ message,
    classify request c st = Throw message ↔
    validForNewPackages (package_name_of request) = true
    ∧ ¬ aliased c (package_name_of request)
    ∧ ∃ pre v post,
        exclude_from_externals st = Some (pre ++ POther v :: post)
        ∧ Forall (passed request) pre
        ∧ message = "Invalid exclusion pattern: " +:+ template_text v
                    +:+ ". Only strings and regular expressions are allowed.")
  ∧ (validForNewPackages (package_name_of request) = false
     ∨ aliased c (package_name_of request)
     ∨ (∃ pre p post,
          exclude_from_externals st = Some (pre ++ p :: post)
          ∧ Forall string_or_regexp pre ∧ matches request p) →
     classify request c st = Ok false).
Proof.
  split.
  - intros message.
    destruct (validForNewPackages (package_name_of request)) eqn:Hvalid; cycle 1.
    { rewrite is_external_invalid by done. split; [done|]. by intros [? _]. }
    destruct (aliased_or_not c (package_name_of request)) as [Haliased|Hna'].
    { rewrite is_external_aliased by done. split; [done|]. by intros (_ & ? & _). }
    rewrite is_external_exclusions by done.
    destruct (exclude_from_externals st) as [patterns|]; cycle 1.
    { split; [done|]. by intros (_ & _ & ? & ? & ? & ? & _). }
    split.
    + destruct (scan request patterns) as [[b|]|m] eqn:Hscan; [done..|].
      intros [= <-]. apply scan_throws_iff in Hscan as (pre & v & post & -> & ? & ->).
      split_and!; [done..|]. by exists pre, v, post.
    + intros (_ & _ & pre & v & post & [= ->] & Hpre & ->).
      by rewrite scan_throws.
  - intros [Hinvalid|[Haliased|(pre & p & post & Hst & Hpre & Hm)]].
    + by apply is_external_invalid.
    + by apply is_external_aliased.
    + destruct (validForNewPackages (package_name_of request)) eqn:Hvalid;
        [|by apply is_external_invalid].
      destruct (aliased_or_not c (package_name_of request)) as [Haliased|Hna].
      * by apply is_external_aliased.
      * rewrite is_external_exclusions, Hst by done. by rewrite scan_matches.
Qed.

End ExternalsFacts.

(** ** [is_external] on sample requests *)

Lemma invalid_package_name_is_internal_witness :
  is_package_name_of "." "./local/file"
  ∧ Sample.validForNewPackages "." = false
  ∧ is_external Sample.validForNewPackages Sample.regexp_test Sample.template_text
      "./local/file"
      {| resolve := Some {| alias := Some {["lodash" := "lodash-es"]} |} |}
      {| exclude_from_externals := Some [PString "react"] |}
    = Ok false.
Proof.
  assert (is_package_name_of "." "./local/file") as Hname.
  { split; [|right; by exists "local/file"].
    compute_done. }
  split_and!; [done..|].
  by apply (invalid_package_name_is_internal _ _ _ ".").
Defined.

Lemma aliased_package_name_is_internal_witness :
  let c := {| resolve := Some {| alias := Some {["react" := "preact-compat"]} |} |} in
  is_package_name_of "react" "react/addons"
  ∧ aliased c "react"
  ∧ is_external Sample.validForNewPackages Sample.regexp_test Sample.template_text
      "react/addons" c {| exclude_from_externals := None |}
    = Ok false
  ∧ is_external Sample.validForNewPackages Sample.regexp_test Sample.template_text
      "react/addons" {| resolve := None |} {| exclude_from_externals := None |}
    = Ok true.
Proof.
  intros c.
  assert (is_package_name_of "react" "react/addons") as Hname.
  { split; [|right; by exists "addons"].
    compute_done. }
  assert (aliased c "react") as Haliased.
  { by exists {| alias := Some {["react" := "preact-compat"]} |},
              {["react" := "preact-compat"]}, "preact-compat". }
  split_and!; [done..| |done].
  by apply (aliased_package_name_is_internal _ _ _ "react").
Defined.

(** C3 as stated fails: with the exclusion list [[5, "lodash"]] the
    request ["lodash"] (valid name, no alias) is equal to a string of the
    list, and the call throws at the 5 in front of it. *)
Lemma excluded_request_behind_invalid_pattern :
  let c := {| resolve := None |} in
  let patterns := [POther 5; PString "lodash"] in
  is_package_name_of "lodash" "lodash"
  ∧ Sample.validForNewPackages "lodash" = true
  ∧ ¬ aliased c "lodash"
  ∧ PString "lodash" ∈ patterns
  ∧ pattern_matches Sample.regexp_test "lodash" (PString (Other:=Z) "lodash")
  ∧ is_external Sample.validForNewPackages Sample.regexp_test Sample.template_text
      "lodash" c {| exclude_from_externals := Some patterns |}
    = Throw "Invalid exclusion pattern: 5. Only strings and regular expressions are allowed.".
Proof.
  intros c patterns. split_and!.
  - split; [compute_done|by left].
  - done.
  - intros (r & table & target & [=] & _).
  - apply list_elem_of_further, list_elem_of_here.
  - by left.
  - done.
Qed.

Lemma excluded_request_is_internal_witness :
  let c := {| resolve := Some {| alias := Some {["react" := "preact-compat"]} |} |} in
  let patterns : list (exclusion_pattern string Z) :=
    [PRegExp "webpack"; PString "lodash"; POther 5] in
  is_package_name_of "lodash" "lodash/merge"
  ∧ Sample.validForNewPackages "lodash" = true
  ∧ ¬ aliased c "lodash"
  ∧ Forall string_or_regexp [PRegExp (Other:=Z) "webpack"]
  ∧ pattern_matches Sample.regexp_test "lodash/merge" (PString (Other:=Z) "lodash")
  ∧ is_external Sample.validForNewPackages Sample.regexp_test Sample.template_text
      "lodash/merge" c {| exclude_from_externals := Some patterns |}
    = Ok false.
Proof.
  intros c patterns.
  assert (is_package_name_of "lodash" "lodash/merge") as Hname.
  { split; [compute_done|right; by exists "merge"]. }
  assert (¬ aliased c "lodash") as Hna.
  { intros (r & table & target & [= <-] & [= <-] & Hk). by vm_compute in Hk. }
  assert (Forall string_or_regexp [PRegExp (Other:=Z) "webpack"]) as Hpre.
  { by repeat constructor. }
  assert (pattern_matches Sample.regexp_test "lodash/merge"
            (PString (Other:=Z) "lodash")) as Hm.
  { right. by exists "merge". }
  split_and!; [done..|].
  by apply (excluded_request_is_internal _ _ _ "lodash" "lodash/merge" c _
              [PRegExp "webpack"] (PString "lodash") [POther 5]).
Defined.

(** C4 as stated fails: with the exclusion list [[5]] the request
    ["lodash"] (valid name, no alias) matches no pattern, and the call
    throws instead of answering [true]. *)
Lemma unmatched_request_with_invalid_pattern :
  let c := {| resolve := None |} in
  let patterns : list (exclusion_pattern string Z) := [POther 5] in
  is_package_name_of "lodash" "lodash"
  ∧ Sample.validForNewPackages "lodash" = true
  ∧ ¬ aliased c "lodash"
  ∧ Forall (λ p, ¬ pattern_matches Sample.regexp_test "lodash" p) patterns
  ∧ is_external Sample.validForNewPackages Sample.regexp_test Sample.template_text
      "lodash" c {| exclude_from_externals := Some patterns |}
    = Throw "Invalid exclusion pattern: 5. Only strings and regular expressions are allowed.".
Proof.
  intros c patterns. split_and!.
  - split; [compute_done|by left].
  - done.
  - intros (r & table & target & [=] & _).
  - repeat constructor. intros [].
  - done.
Qed.

Lemma unmatched_request_is_external_witness :
  let c := {| resolve := Some {| alias := Some {["react" := "preact-compat"]} |} |} in
  let patterns : list (exclusion_pattern string Z) :=
    [PString "react"; PString "lodash/fp"; PRegExp "webpack"] in
  let st := {| exclude_from_externals := Some patterns |} in
  let classify :=
    is_external Sample.validForNewPackages Sample.regexp_test Sample.template_text in
  is_package_name_of "lodash" "lodash/merge"
  ∧ Sample.validForNewPackages "lodash" = true
  ∧ ¬ aliased c "lodash"
  ∧ Forall (passed_over Sample.regexp_test "lodash/merge") patterns
  ∧ classify "lodash/merge" c st = Ok true
  ∧ classify "lodash/merge" {| resolve := None |} {| exclude_from_externals := None |}
    = Ok true
  ∧ classify "lodash/merge" {| resolve := Some {| alias := Some ∅ |} |}
      {| exclude_from_externals := Some [] |}
    = Ok true.
Proof.
  intros c patterns st classify.
  assert (is_package_name_of "lodash" "lodash/merge") as Hname.
  { split; [compute_done|right; by exists "merge"]. }
  assert (¬ aliased c "lodash") as Hna.
  { intros (r & table & target & [= <-] & [= <-] & Hk). by vm_compute in Hk. }
  assert (Forall (passed_over Sample.regexp_test "lodash/merge") patterns) as Hpassed.
  { repeat constructor;
      try (rewrite <-(string_pattern_test Sample.regexp_test)); by vm_compute. }
  split_and!; [done..| | |].
  - apply (proj1 (unmatched_request_is_external _ _ Sample.template_text
                    "lodash" "lodash/merge" c st Hname eq_refl)); [done|].
    by intros ? [= <-].
  - apply (proj2 (unmatched_request_is_external _ Sample.regexp_test
                    Sample.template_text "lodash" "lodash/merge" {| resolve := None |}
                    {| exclude_from_externals := None |} Hname eq_refl)); [|by left].
    by intros ? ? [=].
  - apply (proj2 (unmatched_request_is_external _ Sample.regexp_test
                    Sample.template_text "lodash" "lodash/merge"
                    {| resolve := Some {| alias := Some ∅ |} |}
                    {| exclude_from_externals := Some [] |} Hname eq_refl)); [|by right].
    by intros ? ? [= <-] [= <-].
Defined.

Lemma invalid_pattern_throws_iff_witness :
  let c := {| resolve := Some {| alias := Some {["react" := "preact-compat"]} |} |} in
  let patterns : list (exclusion_pattern string Z) :=
    [PString "react"; POther 5; PString "lodash"] in
  let classify :=
    is_external Sample.validForNewPackages Sample.regexp_test Sample.template_text in
  classify "lodash/merge" c {| exclude_from_externals := Some patterns |}
    = Throw "Invalid exclusion pattern: 5. Only strings and regular expressions are allowed."
  ∧ classify "react/addons" c {| exclude_from_externals := Some patterns |} = Ok false
  ∧ classify "./lodash" c {| exclude_from_externals := Some patterns |} = Ok false
  ∧ classify "react" {| resolve := None |} {| exclude_from_externals := Some patterns |}
    = Ok false.
Proof.
  intros c patterns classify. split_and!.
  - apply (invalid_pattern_throws_iff Sample.validForNewPackages Sample.regexp_test
             Sample.template_text "lodash/merge" c).
    split_and!; [done| |].
    + intros (r & table & target & [= <-] & [= <-] & Hk). by vm_compute in Hk.
    + exists [PString "react"], 5, [PString "lodash"]. split_and!; [done| |done].
      repeat constructor.
      rewrite <-(string_pattern_test Sample.regexp_test). by vm_compute.
  - apply (invalid_pattern_throws_iff Sample.validForNewPackages Sample.regexp_test
             Sample.template_text "react/addons" c).
    right; left.
    by exists {| alias := Some {["react" := "preact-compat"]} |},
              {["react" := "preact-compat"]}, "preact-compat".
  - apply (invalid_pattern_throws_iff Sample.validForNewPackages Sample.regexp_test
             Sample.template_text "./lodash" c).
    by left.
  - apply (invalid_pattern_throws_iff Sample.validForNewPackages Sample.regexp_test
             Sample.template_text "react" {| resolve := None |}).
    right; right. exists [], (PString "react"), [POther 5; PString "lodash"].
    split_and!; [done|constructor|by left].
Defined.

(** ** Loaders *)

Section LoadersFacts.
Import JsString JsStringFacts.

Context {Query : Type} `{EqDecision Query}.
Context (querystring_parse : string → Query).
Context (querystring_stringify : Query → string).

Local Abbreviation parse := (parse_loader querystring_parse).
Local Abbreviation stringify := (stringify_loader querystring_stringify).
Local Abbreviation is_style := (is_style_loader querystring_parse).
Local Abbreviation replace :=
  (replace_style_loader querystring_parse querystring_stringify).
Local Abbreviation replacement :=
  (replacement_of querystring_parse querystring_stringify).
Local Abbreviation convert := (convert_loader (Query:=Query)).
Local Abbreviation tune := (tune_loader querystring_parse querystring_stringify).
Local Abbreviation not_style := (λ entry, is_style entry = false).

(** What [parse_loader] makes of a loader string: the query is parsed
    from the name, whatever stands behind the question mark. *)
Lemma parse_loader_string (s : string) :
  parse (LoaderString s) =
    if decide ("?"%char ∈ chars s)
    then {| name := before "?" s;
            query := Some (querystring_parse (before "?" s)) |}
    else {| name := s; query := None |}.
Proof.
  unfold parse_loader. rewrite (indexOf_char "?" s).
  pose proof (str_length_before "?" s).
  destruct (decide ("?"%char ∈ chars s)) as [Hin|Hin]; [|done].
  rewrite (proj2 (Z.leb_le _ _)) by lia.
  rewrite substring_before, (indexOf_char "?" (before "?" s)).
  rewrite decide_False by apply before_free.
  by rewrite substring_from_0.
Qed.

Lemma chars_app_sep (c : ascii) (p rest : string) :
  c ∈ chars (p +:+ String c rest).
Proof.
  induction p as [|a p IH].
  - rewrite append_nil_l, chars_cons. apply list_elem_of_here.
  - rewrite append_cons, chars_cons. by apply list_elem_of_further.
Qed.

Lemma parse_stringify (n : string) (q : Query) :
  parse (LoaderString (stringify {| name := n; query := Some q |})) =
    {| name := before "?" n; query := Some (querystring_parse (before "?" n)) |}.
Proof.
  unfold stringify_loader. cbn [name query].
  change ("?" +:+ querystring_stringify q) with (String "?" (querystring_stringify q)).
  rewrite parse_loader_string, decide_True by apply chars_app_sep.
  by rewrite before_app_sep.
Qed.

Lemma is_style_truthy (entry : loader_entry Query) :
  is_style entry = true → truthy entry = true.
Proof. by destruct entry as [[|a s]|l q]. Qed.

Lemma array_indexOf_from_middle (pre post : list (loader_entry Query)) x i :
  x ∉ pre →
  array_indexOf_from (pre ++ x :: post) x i = i + Z.of_nat (length pre).
Proof.
  revert i. induction pre as [|y pre IH]; intros i Hnin; cbn.
  - rewrite decide_True by done. lia.
  - apply not_elem_of_cons in Hnin as [Hne Hnin].
    rewrite decide_False by done. rewrite IH by done. lia.
Qed.

Lemma array_set_middle {A : Type} (pre post : list A) (x y : A) :
  array_set (pre ++ x :: post) (Z.of_nat (length pre)) y = pre ++ y :: post.
Proof.
  unfold array_set. rewrite length_app. cbn [length].
  rewrite (proj2 (Z.leb_le _ _)), (proj2 (Z.ltb_lt _ _)) by lia. cbn [andb].
  rewrite Nat2Z.id, insert_app_r_alt, Nat.sub_diag by done. done.
Qed.

Lemma filter_first (f : loader_entry Query → bool) pre x post :
  Forall (λ entry, f entry = false) pre → f x = true →
  head (List.filter f (pre ++ x :: post)) = Some x.
Proof.
  intros Hpre Hx. induction Hpre as [|y pre Hy _ IH]; cbn.
  - by rewrite Hx.
  - by rewrite Hy.
Qed.

Lemma filter_none (f : loader_entry Query → bool) chain :
  Forall (λ entry, f entry = false) chain → List.filter f chain = [].
Proof. induction 1 as [|y chain Hy _ IH]; cbn; [done|]. by rewrite Hy. Qed.

(** A chain has no style loader, or it has a first one. *)
Lemma first_style_loader (chain : list (loader_entry Query)) :
  Forall not_style chain
  ∨ ∃ pre s post,
      chain = pre ++ s :: post ∧ Forall not_style pre ∧ is_style s = true.
Proof.
  induction chain as [|entry chain IH]; [by left|].
  destruct (is_style entry) eqn:Hentry.
  { right. by exists [], entry, chain. }
  destruct IH as [Hall|(pre & s & post & -> & Hpre & Hs)].
  - left. by constructor.
  - right. exists (entry :: pre), s, post. split_and!; [done| |done].
    by constructor.
Qed.

Lemma replace_first pre s post :
  Forall not_style pre → is_style s = true →
  replace (pre ++ s :: post) = pre ++ replacement s :: post.
Proof.
  intros Hpre Hs. unfold replace_style_loader.
  rewrite filter_first, is_style_truthy by done.
  unfold array_indexOf. rewrite array_indexOf_from_middle, Z.add_0_l.
  - by rewrite array_set_middle.
  - intros Hin. rewrite Forall_forall in Hpre. apply Hpre in Hin. congruence.
Qed.

Lemma replace_none chain : Forall not_style chain → replace chain = chain.
Proof. intros Hall. unfold replace_style_loader. by rewrite filter_none. Qed.

(** The position that [indexOf] hands to the assignment of line 108
    lies inside the array. *)
Lemma array_indexOf_in_range chain s :
  head (List.filter is_style chain) = Some s →
  0 ≤ array_indexOf chain s < Z.of_nat (length chain).
Proof.
  destruct (first_style_loader chain) as [Hall|(pre & s' & post & -> & Hpre & Hs)].
  - by rewrite filter_none.
  - rewrite filter_first by done. intros [= <-].
    unfold array_indexOf. rewrite array_indexOf_from_middle, length_app.
    + cbn [length]. lia.
    + intros Hin. rewrite Forall_forall in Hpre. apply Hpre in Hin. congruence.
Qed.

(** A string that contains [marker] has it at some position. *)
Lemma indexOf_from_contains front marker back i :
  0 ≤ i → 0 ≤ indexOf_from marker (front +:+ marker +:+ back) i.
Proof.
  revert i. induction front as [|a front IH]; intros i Hi.
  - rewrite append_nil_l.
    destruct (marker +:+ back) eqn:Hs; cbn [indexOf_from];
      rewrite <-Hs, has_prefix_app; done.
  - rewrite append_cons. cbn [indexOf_from].
    destruct (has_prefix _ _); [done|]. apply IH. lia.
Qed.

Lemma indexOf_contains s marker : contains s marker → 0 ≤ indexOf s marker.
Proof. intros (front & back & ->). by apply indexOf_from_contains. Qed.

(** A module loader with neither [loaders] nor a non-empty [loader]
    is refused. *)
Lemma tune_loader_without_loader (l : module_loader Query) :
  loaders l = None → loader l = None ∨ loader l = Some "" →
  tune l = Throw "No webpack loader specified for this `module.loaders` element".
Proof.
  intros Hnone Hloader. unfold tune_loader, convert_loader. rewrite Hnone.
  by destruct Hloader as [-> | ->].
Qed.

Lemma for_each_unchanged {A : Type} (body : A → result A) (xs : list A) :
  Forall (λ x, body x = Ok x) xs → for_each body xs = Ok xs.
Proof.
  induction 1 as [|x xs Hx _ IH]; [done|].
  cbn [for_each]. by rewrite Hx, IH.
Qed.

(** The first throw of the body ends the loop. *)
Lemma for_each_throws {A B : Type} (body : A → result B) pre x post message :
  Forall (λ y, ∃ z, body y = Ok z) pre → body x = Throw message →
  for_each body (pre ++ x :: post) = Throw message.
Proof.
  intros Hpre Hx. induction Hpre as [|y pre [z Hy] _ IH]; cbn [app for_each].
  - by rewrite Hx.
  - by rewrite Hy, IH.
Qed.

Lemma tune_loaders_unchanged (module_loaders : list (module_loader Query)) :
  Forall (λ l, tune l = Ok l) module_loaders →
  tune_loaders querystring_parse querystring_stringify module_loaders
  = Ok module_loaders.
Proof. apply for_each_unchanged. Qed.

(** C8, amended: the substitution replaces the first entry of the chain
    that is a style loader, at its position, and leaves every other
    entry, the order and the length of the chain as they were; a chain
    without a style loader is unchanged. The loader string
    ["babel-loader!style-loader!css-loader"] becomes a chain of three
    entries in this order, of which the middle one is replaced. *)
Theorem first_style_loader_is_replaced (chain : list (loader_entry Query)) :
  length (replace chain) = length chain
  ∧ (Forall not_style chain → replace chain = chain)
  ∧ (∀ pre s post,
       chain = pre ++ s :: post → Forall not_style pre → is_style s = true →
       replace chain = pre ++ replacement s :: post)
  ∧ (∀ fields,
       let l := {| loader := Some "babel-loader!style-loader!css-loader";
                   loaders := None; other_fields := fields |} in
       convert l =
         Ok (Next {| loader := None;
                     loaders := Some [LoaderString "babel-loader";
                                      LoaderString "style-loader";
                                      LoaderString "css-loader"];
                     other_fields := fields |})
       ∧ tune l =
           Ok {| loader := None;
                 loaders := Some [LoaderString "babel-loader";
                                  LoaderString "fake-style-loader";
                                  LoaderString "css-loader"];
                 other_fields := fields |}).
Proof.
  split_and!.
  - destruct (first_style_loader chain) as [Hall|(pre & s & post & -> & Hpre & Hs)].
    + by rewrite replace_none.
    + rewrite replace_first by done. by rewrite !length_app.
  - apply replace_none.
  - intros pre s post -> Hpre Hs. by apply replace_first.
  - intros fields l. split; reflexivity.
Qed.

(** C9, amended: an entry that already has a [loaders] array is not
    converted (nothing is split, no field is removed), and the style
    loader substitution is then applied to its array; the entry comes
    out unchanged when the array holds no style loader. *)
Theorem chain_entry_is_only_substituted (l : module_loader Query) chain :
  loaders l = Some chain →
  convert l = Ok (Next l)
  ∧ tune l = Ok {| loader := loader l;
                   loaders := Some (replace chain);
                   other_fields := other_fields l |}
  ∧ (Forall not_style chain → tune l = Ok l).
Proof.
  intros Hchain.
  assert (convert l = Ok (Next l)) as Hconvert.
  { unfold convert_loader. by rewrite Hchain. }
  assert (tune l = Ok {| loader := loader l;
                         loaders := Some (replace chain);
                         other_fields := other_fields l |}) as Htune.
  { unfold tune_loader. rewrite Hconvert. cbn [bind]. by rewrite Hchain. }
  split_and!; [done..|].
  intros Hall. rewrite Htune, replace_none by done.
  destruct l. cbn in *. by subst.
Qed.

(** C10, amended: an entry without a [loaders] array whose [loader]
    string contains ["extract-text-webpack-plugin/loader.js"] is left as
    it is: nothing is split, no field is removed, no style loader is
    replaced. *)
Theorem extract_text_loader_is_untouched (l : module_loader Query) s :
  loaders l = None →
  loader l = Some s →
  contains s "extract-text-webpack-plugin/loader.js" →
  convert l = Ok (Continue l) ∧ tune l = Ok l.
Proof.
  intros Hnone Hs Hmarker%indexOf_contains.
  assert (convert l = Ok (Continue l)) as Hconvert.
  { unfold convert_loader. rewrite Hnone, Hs.
    destruct s as [|a s]; [done|]. by rewrite (proj2 (Z.leb_le _ _)). }
  split; [done|]. unfold tune_loader. by rewrite Hconvert.
Qed.

End LoadersFacts.

(** ** Loaders on sample configurations *)

(** C6 fails on the code: [parse_loader] cuts the name off first and
    then parses the query out of the name, so what it returns for a
    stringified loader does not depend on the query; with Node's
    [querystring], [{name: "css-loader", query: {modules: "true"}}] comes
    back as [{name: "css-loader", query: {"css-loader": ""}}]. *)
Theorem parse_stringify_forgets_query :
  (∀ (Query : Type) (querystring_parse : string → Query)
     (querystring_stringify : Query → string) (n : string) (q1 q2 : Query),
     parse_loader querystring_parse
       (LoaderString
          (stringify_loader querystring_stringify {| name := n; query := Some q1 |}))
     = parse_loader querystring_parse
         (LoaderString
            (stringify_loader querystring_stringify {| name := n; query := Some q2 |})))
  ∧ stringify_loader Node.querystring_stringify
      {| name := "css-loader"; query := Some [("modules", "true")] |}
    = "css-loader?modules=true"
  ∧ parse_loader Node.querystring_parse (LoaderString "css-loader?modules=true")
    = {| name := "css-loader"; query := Some [("css-loader", "")] |}.
Proof.
  split_and!; [|done..].
  intros Query querystring_parse querystring_stringify n q1 q2.
  by rewrite !parse_stringify.
Qed.

(** C7 fails on the code: the entry ["style-loader?modules=true"] is
    replaced by ["fake-style-loader?"] followed by the stringified parse
    of the name ["style-loader"]; with Node's [querystring] this is
    ["fake-style-loader?style-loader="]. *)
Theorem style_loader_query_is_lost :
  (∀ (Query : Type) (Heq : EqDecision Query) (querystring_parse : string → Query)
     (querystring_stringify : Query → string),
     replace_style_loader querystring_parse querystring_stringify
       [LoaderString "style-loader?modules=true"]
     = [LoaderString
          ("fake-style-loader?"
             +:+ querystring_stringify (querystring_parse "style-loader"))])
  ∧ replace_style_loader Node.querystring_parse Node.querystring_stringify
      [LoaderString "style-loader?modules=true"]
    = [LoaderString "fake-style-loader?style-loader="]
  ∧ tune_loader Node.querystring_parse Node.querystring_stringify
      {| loader := Some "style-loader?modules=true"; loaders := None;
         other_fields := ∅ |}
    = Ok {| loader := None;
            loaders := Some [LoaderString "fake-style-loader?style-loader="];
            other_fields := ∅ |}.
Proof.
  split_and!; [|done..].
  intros Query Heq querystring_parse querystring_stringify.
  assert (is_style_loader querystring_parse (LoaderString "style-loader?modules=true")
          = true) as Hstyle.
  { unfold is_style_loader. by rewrite parse_loader_string. }
  etrans.
  { by apply (replace_first querystring_parse querystring_stringify []
                (LoaderString "style-loader?modules=true") []). }
  unfold replacement_of. by rewrite parse_loader_string.
Qed.

(** C8 as stated fails: of two style loaders in a chain only the first
    is replaced. *)
Lemma second_style_loader_is_kept :
  let chain : list (loader_entry Node.Query) :=
    [LoaderString "style-loader"; LoaderString "css-loader"; LoaderString "style"] in
  is_style_loader Node.querystring_parse (LoaderString "style-loader") = true
  ∧ is_style_loader Node.querystring_parse (LoaderString "style") = true
  ∧ replace_style_loader Node.querystring_parse Node.querystring_stringify chain
    = [LoaderString "fake-style-loader"; LoaderString "css-loader"; LoaderString "style"]
  ∧ substitute_each Node.querystring_parse Node.querystring_stringify chain
    = [LoaderString "fake-style-loader"; LoaderString "css-loader";
       LoaderString "fake-style-loader"].
Proof. by split_and!. Qed.

Lemma first_style_loader_is_replaced_witness :
  let chain : list (loader_entry Node.Query) :=
    [LoaderString "css-loader"; LoaderObject "style-loader" (Some [("singleton", "true")]);
     LoaderString "style"] in
  Forall (λ entry, is_style_loader Node.querystring_parse entry = false)
    [LoaderString "css-loader"]
  ∧ is_style_loader Node.querystring_parse
      (LoaderObject "style-loader" (Some [("singleton", "true")])) = true
  ∧ replace_style_loader Node.querystring_parse Node.querystring_stringify chain
    = [LoaderString "css-loader"; LoaderString "fake-style-loader?singleton=true";
       LoaderString "style"].
Proof.
  intros chain.
  assert (Forall (λ entry, is_style_loader Node.querystring_parse entry = false)
            [LoaderString "css-loader"]) as Hpre by (by repeat constructor).
  split_and!; [done..|].
  by apply (proj1 (proj2 (proj2 (first_style_loader_is_replaced Node.querystring_parse
                                   Node.querystring_stringify chain)))
              [LoaderString "css-loader"]
              (LoaderObject "style-loader" (Some [("singleton", "true")]))
              [LoaderString "style"]).
Defined.

(** C9 as stated fails: an entry that has a [loaders] array with a style
    loader in it does not come out unchanged. *)
Lemma chain_entry_with_style_loader_is_changed :
  let l : module_loader Node.Query :=
    {| loader := None;
       loaders := Some [LoaderString "style-loader"; LoaderString "css-loader"];
       other_fields := {["test" := "css"]} |} in
  loaders l = Some [LoaderString "style-loader"; LoaderString "css-loader"]
  ∧ tune_loader Node.querystring_parse Node.querystring_stringify l
    = Ok {| loader := None;
            loaders := Some [LoaderString "fake-style-loader"; LoaderString "css-loader"];
            other_fields := {["test" := "css"]} |}.
Proof. by split. Qed.

Lemma chain_entry_is_only_substituted_witness :
  let chain : list (loader_entry Node.Query) :=
    [LoaderString "babel-loader?cacheDirectory"; LoaderString "eslint-loader"] in
  let l : module_loader Node.Query :=
    {| loader := None; loaders := Some chain; other_fields := {["test" := "js"]} |} in
  loaders l = Some chain
  ∧ Forall (λ entry, is_style_loader Node.querystring_parse entry = false) chain
  ∧ convert_loader l = Ok (Next l)
  ∧ tune_loader Node.querystring_parse Node.querystring_stringify l = Ok l.
Proof.
  intros chain l.
  assert (Forall (λ entry, is_style_loader Node.querystring_parse entry = false) chain)
    as Hall by (by repeat constructor).
  pose proof (chain_entry_is_only_substituted Node.querystring_parse
                Node.querystring_stringify l chain eq_refl) as (Hconvert & _ & Htune).
  split_and!; [done..|]. by apply Htune.
Defined.

(** C10 as stated fails: an entry whose [loader] string contains the
    marker and which also has a [loaders] array is taken for an entry
    with a chain, and the style loader of the array is replaced. *)
Lemma extract_text_entry_with_chain_is_changed :
  let l : module_loader Node.Query :=
    {| loader := Some "/lib/extract-text-webpack-plugin/loader.js?omit=1!css-loader";
       loaders := Some [LoaderString "style-loader"; LoaderString "css-loader"];
       other_fields := ∅ |} in
  contains "/lib/extract-text-webpack-plugin/loader.js?omit=1!css-loader"
    "extract-text-webpack-plugin/loader.js"
  ∧ tune_loader Node.querystring_parse Node.querystring_stringify l
    = Ok {| loader := Some "/lib/extract-text-webpack-plugin/loader.js?omit=1!css-loader";
            loaders := Some [LoaderString "fake-style-loader"; LoaderString "css-loader"];
            other_fields := ∅ |}.
Proof.
  intros l. split; [|done]. by exists "/lib/", "?omit=1!css-loader".
Qed.

Lemma extract_text_loader_is_untouched_witness :
  let s := "/lib/extract-text-webpack-plugin/loader.js?omit=1!style-loader!css-loader" in
  let l : module_loader Node.Query :=
    {| loader := Some s; loaders := None; other_fields := {["test" := "css"]} |} in
  loaders l = None
  ∧ loader l = Some s
  ∧ contains s "extract-text-webpack-plugin/loader.js"
  ∧ convert_loader l = Ok (Continue l)
  ∧ tune_loader Node.querystring_parse Node.querystring_stringify l = Ok l.
Proof.
  intros s l.
  assert (contains s "extract-text-webpack-plugin/loader.js") as Hmarker.
  { by exists "/lib/", "?omit=1!style-loader!css-loader". }
  split_and!; [done..| |];
    by apply (extract_text_loader_is_untouched Node.querystring_parse
                Node.querystring_stringify l s).
Defined.

(** * Further properties *)

(** ** More on strings *)

Module JsStringMore.
Import JsString JsStringFacts.

Lemma append_nil_r (s : string) : s +:+ "" = s.
Proof. induction s as [|a s IH]; [done|]. rewrite append_cons. by f_equal. Qed.

Lemma length_append (s t : string) :
  String.length (s +:+ t) = (String.length s + String.length t)%nat.
Proof.
  induction s as [|a s IH]; [done|]. rewrite append_cons. cbn [String.length]. lia.
Qed.

Lemma chars_append (s t : string) : chars (s +:+ t) = chars s ++ chars t.
Proof.
  induction s as [|a s IH]; [done|].
  rewrite append_cons, !chars_cons, IH. done.
Qed.

Lemma rev_app_append (s t : string) : String.rev_app s t = String.rev s +:+ t.
Proof.
  unfold String.rev. revert t. induction s as [|a s IH]; intros t; [done|].
  cbn [String.rev_app]. rewrite (IH (String a t)), (IH (String a "")).
  by rewrite append_assoc.
Qed.

Lemma rev_cons (a : ascii) (s : string) :
  String.rev (String a s) = String.rev s +:+ String a "".
Proof. unfold String.rev at 1. cbn [String.rev_app]. apply rev_app_append. Qed.

Lemma rev_append (s t : string) :
  String.rev (s +:+ t) = String.rev t +:+ String.rev s.
Proof.
  induction s as [|a s IH].
  - by rewrite append_nil_l, append_nil_r.
  - by rewrite append_cons, !rev_cons, IH, append_assoc.
Qed.

Lemma rev_involutive (s : string) : String.rev (String.rev s) = s.
Proof.
  induction s as [|a s IH]; [done|].
  by rewrite rev_cons, rev_append, IH.
Qed.

Lemma chars_rev (s : string) : chars (String.rev s) = reverse (chars s).
Proof.
  induction s as [|a s IH]; [done|].
  by rewrite rev_cons, chars_append, !chars_cons, reverse_cons, IH.
Qed.

Lemma has_prefix_length (p s : string) :
  has_prefix p s = true → (String.length p ≤ String.length s)%nat.
Proof.
  intros [rest ->]%has_prefix_inv. rewrite length_append. lia.
Qed.

Lemma has_prefix_refl (p : string) : has_prefix p p = true.
Proof. rewrite <-(append_nil_r p) at 2. apply has_prefix_app. Qed.

(** [ends_with] is the test for a suffix. *)
Lemma ends_with_iff (s p : string) :
  Helpers.ends_with s p = true ↔ ∃ front, s = front +:+ p.
Proof.
  unfold Helpers.ends_with. rewrite has_prefix_iff. split.
  - intros [rest Hrest]. exists (String.rev rest).
    by rewrite <-(rev_involutive s), Hrest, rev_append, rev_involutive.
  - intros [front ->]. exists (String.rev front). apply rev_append.
Qed.

Lemma lastIndexOf_from_short (needle s : string) (i found : Z) :
  (String.length s < String.length needle)%nat →
  lastIndexOf_from needle s i found = found.
Proof.
  revert i found. induction s as [|a s IH]; intros i found Hlen.
  - cbn [lastIndexOf_from]. destruct (has_prefix needle "") eqn:Hp; [|done].
    apply has_prefix_length in Hp. lia.
  - cbn [lastIndexOf_from]. destruct (has_prefix needle (String a s)) eqn:Hp.
    + apply has_prefix_length in Hp. lia.
    + apply IH. cbn [String.length] in Hlen. lia.
Qed.

(** In a string that ends with a non-empty [needle], the last
    occurrence of [needle] is this ending. *)
Lemma lastIndexOf_from_suffix (needle front : string) (i found : Z) :
  needle ≠ "" →
  lastIndexOf_from needle (front +:+ needle) i found = i + str_length front.
Proof.
  intros Hne. revert i found. induction front as [|a front IH]; intros i found.
  - rewrite append_nil_l. destruct needle as [|b needle]; [done|].
    cbn [lastIndexOf_from].
    rewrite has_prefix_refl.
    rewrite lastIndexOf_from_short by (cbn [String.length]; lia).
    unfold str_length. cbn. lia.
  - rewrite append_cons. cbn [lastIndexOf_from]. rewrite IH.
    unfold str_length. cbn [String.length]. lia.
Qed.

Lemma substring_prefix (p rest : string) :
  substring (p +:+ rest) 0 (str_length p) = p.
Proof.
  unfold substring, clamp, str_length. rewrite length_append.
  rewrite (Z.max_l 0 0), (Z.min_l 0), Z.max_l, Z.min_l by lia.
  rewrite Z.min_l, Z.max_r, Z.sub_0_r, Nat2Z.id by lia.
  change (Z.to_nat 0) with 0%nat. apply String_substring_prefix.
Qed.

(** The part in front of the first [c], said without recursion. *)
Lemma before_iff (c : ascii) (s p : string) :
  before c s = p ↔ (c ∉ chars p) ∧ (s = p ∨ ∃ rest, s = p +:+ String c rest).
Proof.
  split.
  - intros <-. split; [apply before_free|].
    destruct (decide (c ∈ chars s)) as [Hin|Hin].
    + right. by apply before_occurs.
    + left. by rewrite before_notin.
  - intros [Hfree [->|[rest ->]]]; [by apply before_notin|].
    rewrite before_app_sep. by apply before_notin.
Qed.

(** [split] and [join]. *)
Lemma split_from_not_nil (c : ascii) (s acc : string) : split_from c s acc ≠ [].
Proof.
  revert acc. induction s as [|a s IH]; intros acc; cbn [split_from]; [done|].
  destruct (Ascii.eqb a c); [done|apply IH].
Qed.

Lemma join_cons (sep piece : string) (pieces : list string) :
  pieces ≠ [] →
  Node.join sep (piece :: pieces) = piece +:+ sep +:+ Node.join sep pieces.
Proof. by destruct pieces. Qed.

Lemma join_split_from (c : ascii) (s acc : string) :
  Node.join (String c "") (split_from c s acc) = String.rev acc +:+ s.
Proof.
  revert acc. induction s as [|a s IH]; intros acc; cbn [split_from].
  - cbn. by rewrite append_nil_r.
  - destruct (Ascii.eqb_spec a c) as [->|Hne].
    + rewrite join_cons by apply split_from_not_nil. by rewrite IH.
    + rewrite IH, rev_cons, append_assoc. done.
Qed.

Lemma split_from_free (c : ascii) (s acc : string) :
  c ∉ chars acc → Forall (λ piece, c ∉ chars piece) (split_from c s acc).
Proof.
  revert acc. induction s as [|a s IH]; intros acc Hacc; cbn [split_from].
  - constructor; [|done]. rewrite chars_rev. by rewrite elem_of_reverse.
  - destruct (Ascii.eqb_spec a c) as [->|Hne].
    + constructor; [by rewrite chars_rev, elem_of_reverse|].
      apply IH, not_elem_of_nil.
    + apply IH. rewrite chars_cons, not_elem_of_cons. split; [congruence|done].
Qed.

Lemma length_split_from (c : ascii) (s acc : string) :
  length (split_from c s acc)
  = S (length (List.filter (Ascii.eqb c) (chars s))).
Proof.
  revert acc. induction s as [|a s IH]; intros acc; cbn [split_from]; [done|].
  rewrite chars_cons. cbn [List.filter]. rewrite (Ascii.eqb_sym c a).
  destruct (Ascii.eqb a c); cbn [length]; by rewrite IH.
Qed.

End JsStringMore.

(** ** More on [is_external] *)

Section ExternalsMore.
Import JsString JsStringFacts JsStringMore.

Context (validForNewPackages : string → bool).
Context {RegExp Other : Type}.
Context (regexp_test : RegExp → string → bool).
Context (template_text : Other → string).

Local Abbreviation classify :=
  (is_external validForNewPackages regexp_test template_text).
Local Abbreviation scan := (exclusion_loop regexp_test template_text).
Local Abbreviation matches := (pattern_matches (Other:=Other) regexp_test).
Local Abbreviation passed := (passed_over (Other:=Other) regexp_test).

Lemma passed_not_matches request (p : exclusion_pattern RegExp Other) :
  passed request p → matches request p → False.
Proof. by intros [_ Hno]. Qed.

Lemma decide_pattern (q : exclusion_pattern RegExp Other) :
  (∃ v, q = POther v) ∨ string_or_regexp q.
Proof. destruct q as [p|regexp|v]; [by right..|left; by exists v]. Qed.

(** The three ways in which the loop over the patterns can end. *)
Lemma scan_cases request patterns :
  (scan request patterns = Ok None ∧ Forall (passed request) patterns)
  ∨ (scan request patterns = Ok (Some false)
     ∧ ∃ pre p post,
         patterns = pre ++ p :: post ∧ Forall (passed request) pre
         ∧ matches request p)
  ∨ (∃ pre v post,
       scan request patterns = Throw (invalid_exclusion_pattern template_text v)
       ∧ patterns = pre ++ POther v :: post ∧ Forall (passed request) pre).
Proof.
  induction patterns as [|q patterns IH]; [by left|].
  destruct (decide_pattern q) as [[v ->]|Hq].
  { right; right. by exists [], v, patterns. }
  destruct (matches_or_passed regexp_test request q Hq) as [Hm|Hp].
  { right; left. split; [by apply scan_cons_matches|]. by exists [], q, patterns. }
  rewrite (scan_cons_passed _ template_text) by done.
  destruct IH as [[Hscan Hall]|[[Hscan (pre & p & post & -> & Hpre & Hm)]
                               |(pre & v & post & Hscan & -> & Hpre)]].
  - left. split; [done|by constructor].
  - right; left. split; [done|].
    exists (q :: pre), p, post. split_and!; [done|by constructor|done].
  - right; right. exists (q :: pre), v, post.
    split_and!; [done|done|by constructor].
Qed.

Lemma scan_none_iff request patterns :
  scan request patterns = Ok None ↔ Forall (passed request) patterns.
Proof.
  split; [|apply scan_passed].
  destruct (scan_cases request patterns)
    as [[_ Hall]|[[Hscan _]|(pre & v & post & Hscan & _)]]; [done|..];
    rewrite Hscan; done.
Qed.

Lemma scan_false_iff request patterns :
  scan request patterns = Ok (Some false) ↔
  ∃ pre p post,
    patterns = pre ++ p :: post ∧ Forall (passed request) pre ∧ matches request p.
Proof.
  split.
  - destruct (scan_cases request patterns)
      as [[Hscan _]|[[_ Hsplit]|(pre & v & post & Hscan & _)]]; [|done|];
      rewrite Hscan; done.
  - intros (pre & p & post & -> & Hpre & Hm). apply scan_matches; [|done].
    eapply Forall_impl; [exact Hpre|]. by intros q [Hq _].
Qed.

Lemma scan_never_true request patterns : scan request patterns ≠ Ok (Some true).
Proof.
  destruct (scan_cases request patterns)
    as [[Hscan _]|[[Hscan _]|(pre & v & post & Hscan & _)]]; by rewrite Hscan.
Qed.

(** X1: [is_external] answers [true] exactly when the package name is
    valid, no alias has this name, and the exclusion list, if there is
    one, holds only strings and regular expressions that do not match the
    request. *)
Theorem is_external_true_iff request c st :
  classify request c st = Ok true ↔
  validForNewPackages (package_name_of request) = true
  ∧ ¬ aliased c (package_name_of request)
  ∧ ∀ patterns, exclude_from_externals st = Some patterns →
                Forall (passed request) patterns.
Proof.
  destruct (validForNewPackages (package_name_of request)) eqn:Hvalid; cycle 1.
  { rewrite is_external_invalid by done. split; [done|]. by intros [? _]. }
  destruct (aliased_or_not c (package_name_of request)) as [Ha|Hna].
  { rewrite is_external_aliased by done. split; [done|]. by intros (_ & ? & _). }
  rewrite is_external_exclusions by done.
  destruct (exclude_from_externals st) as [patterns|]; cycle 1.
  { split; [|done]. intros _. split_and!; [done..|]. by intros ? [=]. }
  split.
  - intros Htrue. split_and!; [done..|]. intros ? [= <-].
    apply scan_none_iff.
    destruct (scan request patterns) as [[[|]|]|m] eqn:Hscan; [|done..].
    by apply scan_never_true in Hscan.
  - intros (_ & _ & Hall). by rewrite scan_passed by auto.
Qed.

(** X2: [is_external] answers [false] exactly when the package name is
    not valid, or an alias has this name, or the loop over the exclusion
    list passes over strings and regular expressions that do not match
    and then finds a pattern that matches the request. *)
Theorem is_external_false_iff request c st :
  classify request c st = Ok false ↔
  validForNewPackages (package_name_of request) = false
  ∨ aliased c (package_name_of request)
  ∨ ∃ pre p post,
      exclude_from_externals st = Some (pre ++ p :: post)
      ∧ Forall (passed request) pre ∧ matches request p.
Proof.
  destruct (validForNewPackages (package_name_of request)) eqn:Hvalid; cycle 1.
  { rewrite is_external_invalid by done. split; [by left|done]. }
  destruct (aliased_or_not c (package_name_of request)) as [Ha|Hna].
  { rewrite is_external_aliased by done. split; [by right; left|done]. }
  rewrite is_external_exclusions by done.
  destruct (exclude_from_externals st) as [patterns|]; cycle 1.
  { split; [done|]. by intros [?|[?|(? & ? & ? & ? & _)]]. }
  split.
  - intros Hfalse. right; right.
    destruct (scan request patterns) as [[[|]|]|m] eqn:Hscan; [done| |done..].
    apply scan_false_iff in Hscan as (pre & p & post & -> & Hpre & Hm).
    by exists pre, p, post.
  - intros [?|[?|(pre & p & post & [= ->] & Hpre & Hm)]]; [done..|].
    rewrite (proj2 (scan_false_iff request (pre ++ p :: post))); [done|].
    by exists pre, p, post.
Qed.

(** X3: when the exclusion list holds only strings and regular
    expressions, [is_external] does not throw, and its answer does not
    depend on the order of the patterns. *)
Theorem is_external_order_independent request c patterns patterns' :
  Forall string_or_regexp patterns →
  patterns ≡ₚ patterns' →
  (∃ b, classify request c {| exclude_from_externals := Some patterns |} = Ok b)
  ∧ classify request c {| exclude_from_externals := Some patterns |}
    = classify request c {| exclude_from_externals := Some patterns' |}.
Proof.
  intros Htyped Hperm.
  assert (Forall string_or_regexp patterns') as Htyped' by (by rewrite <-Hperm).
  assert (∀ ps, Forall string_or_regexp ps →
                scan request ps = Ok None
                ∨ scan request ps = Ok (Some false)) as Hok.
  { intros ps Hps.
    destruct (scan_cases request ps)
      as [[? _]|[[? _]|(pre & v & post & _ & -> & _)]]; [by left|by right|].
    apply Forall_app in Hps as [_ Hv]. by inversion Hv. }
  destruct (validForNewPackages (package_name_of request)) eqn:Hvalid; cycle 1.
  { rewrite !is_external_invalid by done. split; [by eexists|done]. }
  destruct (aliased_or_not c (package_name_of request)) as [Ha|Hna].
  { rewrite !is_external_aliased by done. split; [by eexists|done]. }
  rewrite !is_external_exclusions by done. cbn [exclude_from_externals].
  destruct (Hok patterns Htyped) as [Hscan|Hscan]; rewrite Hscan; cbn [bind].
  - split; [by eexists|].
    apply scan_none_iff in Hscan. rewrite Hperm in Hscan.
    by rewrite scan_passed.
  - split; [by eexists|].
    destruct (Hok patterns' Htyped') as [Hscan'|Hscan']; rewrite Hscan'; [|done].
    apply scan_none_iff in Hscan'. rewrite <-Hperm in Hscan'.
    apply scan_passed with (template_text := template_text) in Hscan'. congruence.
Qed.

(** X4: a request is not external when the exclusion list holds the
    name of its package as a string, behind strings and regular
    expressions only: excluding a package excludes every path into it. *)
Theorem excluded_package_covers_its_paths request c st pre post :
  exclude_from_externals st = Some (pre ++ PString (package_name_of request) :: post) →
  Forall string_or_regexp pre →
  classify request c st = Ok false.
Proof.
  intros Hst Hpre.
  assert (matches request (PString (package_name_of request))) as Hm.
  { destruct (proj2 (package_name_of_spec (package_name_of request) request) eq_refl)
      as [_ [Heq|[rest Heq]]]; [by left|right; by exists rest]. }
  destruct (validForNewPackages (package_name_of request)) eqn:Hvalid;
    [|by apply is_external_invalid].
  destruct (aliased_or_not c (package_name_of request)) as [Ha|Hna];
    [by apply is_external_aliased|].
  rewrite is_external_exclusions, Hst by done. by rewrite scan_matches.
Qed.

(** X5: the package name that [is_external] derives from a request has
    no slash, the request is this name or this name followed by a slash
    and more, no other text has these two properties, and deriving the
    package name of a package name changes nothing. *)
Theorem package_name_is_request_up_to_slash request :
  is_package_name_of (package_name_of request) request
  ∧ (∀ p, is_package_name_of p request → p = package_name_of request)
  ∧ package_name_of (package_name_of request) = package_name_of request.
Proof.
  pose proof (proj2 (package_name_of_spec (package_name_of request) request) eq_refl)
    as Hname.
  split_and!; [done| |].
  - by intros p <-%package_name_of_spec.
  - apply package_name_of_spec. destruct Hname as [Hfree _]. split; [done|by left].
Qed.

End ExternalsMore.

(** ** More on the loaders *)

Section LoadersMore.
Import JsString JsStringFacts JsStringMore.

Context {Query : Type} `{EqDecision Query}.
Context (querystring_parse : string → Query).
Context (querystring_stringify : Query → string).

Local Abbreviation parse := (parse_loader querystring_parse).
Local Abbreviation stringify := (stringify_loader querystring_stringify).
Local Abbreviation is_style := (is_style_loader querystring_parse).
Local Abbreviation replace :=
  (replace_style_loader querystring_parse querystring_stringify).
Local Abbreviation replacement :=
  (replacement_of querystring_parse querystring_stringify).
Local Abbreviation convert := (convert_loader (Query:=Query)).
Local Abbreviation tune := (tune_loader querystring_parse querystring_stringify).
Local Abbreviation tune_all :=
  (tune_loaders querystring_parse querystring_stringify).
Local Abbreviation not_style := (λ entry, is_style entry = false).

Lemma parse_name_string (s : string) : name (parse (LoaderString s)) = before "?" s.
Proof.
  rewrite parse_loader_string. destruct (decide _) as [Hin|Hin]; [done|].
  cbn [name]. by rewrite before_notin.
Qed.

(** [is_style_loader] looks at the parsed name only. *)
Lemma is_style_name (entry : loader_entry Query) :
  is_style entry = true ↔
  name (parse entry) = "style" ∨ name (parse entry) = "style-loader".
Proof.
  unfold is_style_loader. split.
  - destruct (Helpers.ends_with (name (parse entry)) "-loader") eqn:Hends.
    + apply ends_with_iff in Hends as [front Hfront]. rewrite Hfront.
      unfold lastIndexOf. rewrite lastIndexOf_from_suffix, Z.add_0_l by done.
      rewrite substring_prefix. intros ->%String.eqb_eq. by right.
    + intros ?%String.eqb_eq. by left.
  - by intros [-> | ->].
Qed.

Lemma replacement_not_style (entry : loader_entry Query) :
  is_style (replacement entry) = false.
Proof.
  destruct (is_style (replacement entry)) eqn:Hstyle; [|done].
  apply is_style_name in Hstyle. unfold replacement_of in Hstyle.
  rewrite parse_name_string in Hstyle. unfold stringify_loader in Hstyle.
  cbn [name query] in Hstyle.
  destruct (query (parse entry)) as [q|].
  - change ("?" +:+ querystring_stringify q)
      with (String "?" (querystring_stringify q)) in Hstyle.
    rewrite before_app_sep in Hstyle. by destruct Hstyle.
  - by destruct Hstyle.
Qed.

Lemma filter_nil_Forall {A : Type} (f : A → bool) (xs : list A) :
  List.filter f xs = [] → Forall (λ x, f x = false) xs.
Proof.
  induction xs as [|x xs IH]; [done|]. cbn [List.filter].
  destruct (f x) eqn:Hx; [done|]. intros Hnil. constructor; auto.
Qed.

Lemma filter_replace (chain : list (loader_entry Query)) :
  List.filter is_style (replace chain) = tail (List.filter is_style chain).
Proof.
  destruct (first_style_loader querystring_parse chain)
    as [Hall|(pre & s & post & -> & Hpre & Hs)].
  - rewrite replace_none by done. by rewrite filter_none.
  - rewrite replace_first by done. rewrite !List.filter_app.
    rewrite (filter_none _ pre) by done. cbn [List.filter app].
    by rewrite replacement_not_style, Hs.
Qed.

(** [indexOf] finds what the string contains. *)
Lemma indexOf_from_found (needle s : string) (i : Z) :
  0 ≤ i → 0 ≤ indexOf_from needle s i → contains s needle.
Proof.
  revert i. induction s as [|a s IH]; intros i Hi; cbn [indexOf_from].
  - destruct (has_prefix needle "") eqn:Hp; [|lia].
    intros _. apply has_prefix_inv in Hp as [rest Hrest]. by exists "", rest.
  - destruct (has_prefix needle (String a s)) eqn:Hp.
    + intros _. apply has_prefix_inv in Hp as [rest Hrest]. by exists "", rest.
    + intros Hfound. destruct (IH (i + 1)) as (front & back & ->); [lia|done|].
      by exists (String a front), back.
Qed.

Lemma indexOf_nonneg_iff (s needle : string) :
  0 ≤ indexOf s needle ↔ contains s needle.
Proof. split; [by apply indexOf_from_found|apply indexOf_contains]. Qed.

Lemma tune_throws_iff (l : module_loader Query) (message : string) :
  tune l = Throw message ↔ without_loader l ∧ message = no_loader_message.
Proof.
  unfold tune_loader, convert_loader, without_loader.
  destruct (loaders l) as [chain|] eqn:Hchain.
  { cbn [bind]. rewrite Hchain. split; [done|]. by intros [[? _] _]. }
  destruct (loader l) as [[|a s]|] eqn:Hloader.
  - cbn [bind]. split; [intros [= <-]; by auto|]. by intros [_ ->].
  - destruct (0 <=? _); cbn [bind loaders].
    + split; [done|]. by intros [[_ [?|?]] _].
    + split; [done|]. by intros [[_ [?|?]] _].
  - cbn [bind]. split; [intros [= <-]; by auto|]. by intros [_ ->].
Qed.

Lemma tune_other_fields (l l' : module_loader Query) :
  tune l = Ok l' → other_fields l' = other_fields l.
Proof.
  unfold tune_loader, convert_loader.
  destruct (loaders l) as [chain|] eqn:Hchain.
  { cbn [bind]. rewrite Hchain. by intros [= <-]. }
  destruct (loader l) as [[|a s]|]; [done| |done].
  destruct (0 <=? _); cbn [bind loaders]; by intros [= <-].
Qed.

Lemma tune_all_throws_iff (ls : list (module_loader Query)) (message : string) :
  tune_all ls = Throw message ↔
  Exists without_loader ls ∧ message = no_loader_message.
Proof.
  unfold tune_loaders. induction ls as [|l ls IH]; cbn [for_each].
  { split; [done|]. intros [Hex _]. by inversion Hex. }
  destruct (tune l) as [l'|m] eqn:Htune; cbn [bind].
  - assert (¬ without_loader l) as Hgood.
    { intros Hbad.
      pose proof (proj2 (tune_throws_iff l no_loader_message) (conj Hbad eq_refl)).
      congruence. }
    destruct (for_each tune ls) as [ls'|m] eqn:Hrest; cbn [bind].
    + split; [done|]. intros [Hex ->]. apply Exists_cons in Hex as [?|Hex]; [done|].
      discriminate (proj2 IH (conj Hex eq_refl)).
    + split.
      * intros [= <-]. destruct (proj1 IH eq_refl) as [Hex ->].
        split; [by apply Exists_cons_tl|done].
      * intros [Hex ->]. apply Exists_cons in Hex as [?|Hex]; [done|].
        exact (proj2 IH (conj Hex eq_refl)).
  - apply tune_throws_iff in Htune as [Hbad ->]. split.
    + intros [= <-]. split; [by apply Exists_cons_hd|done].
    + by intros [_ ->].
Qed.

Lemma for_each_Ok {A B : Type} (body : A → result B) (xs : list A) (ys : list B) :
  for_each body xs = Ok ys ↔ Forall2 (λ x y, body x = Ok y) xs ys.
Proof.
  revert ys. induction xs as [|x xs IH]; intros ys; cbn [for_each].
  - split; [intros [= <-]; constructor|]. by intros ->%Forall2_nil_inv_l.
  - destruct (body x) as [y|m] eqn:Hx; cbn [bind]; cycle 1.
    { split; [done|]. intros (? & ? & ? & _)%Forall2_cons_inv_l. congruence. }
    destruct (for_each body xs) as [ys'|m] eqn:Hxs; cbn [bind].
    + split.
      * intros [= <-]. constructor; [done|]. by apply IH.
      * intros (y' & ys'' & Hy & Hys & ->)%Forall2_cons_inv_l.
        apply IH in Hys. congruence.
    + split; [done|]. intros (y' & ys'' & Hy & Hys & ->)%Forall2_cons_inv_l.
      apply IH in Hys. congruence.
Qed.

(** X6: a loader string is taken for the style loader exactly when it
    is [style] or [style-loader], alone or followed by a question mark
    and anything; a loader object exactly when its [loader] field is
    [style] or [style-loader]. *)
Theorem is_style_loader_iff :
  (∀ s,
     is_style_loader querystring_parse (LoaderString s) = true ↔
     s = "style" ∨ s = "style-loader"
     ∨ ∃ q, s = "style?" +:+ q ∨ s = "style-loader?" +:+ q)
  ∧ (∀ l q,
       is_style_loader querystring_parse (LoaderObject l q) = true ↔
       l = "style" ∨ l = "style-loader").
Proof.
  split; [|intros l q; apply is_style_name].
  intros s. rewrite is_style_name, parse_name_string, !before_iff. split.
  - intros [[_ [->|[q ->]]]|[_ [->|[q ->]]]].
    + by left.
    + right; right. exists q. by left.
    + by right; left.
    + right; right. exists q. by right.
  - intros [->|[->|[q [->| ->]]]].
    + left. split; [compute_done|by left].
    + right. split; [compute_done|by left].
    + left. split; [compute_done|right; by exists q].
    + right. split; [compute_done|right; by exists q].
Qed.

(** X7: after the substitution the style loaders of the chain are
    those it had before without the first one; the string put in its
    place is never taken for a style loader. *)
Theorem style_loaders_after_replace (chain : list (loader_entry Query)) :
  List.filter (is_style_loader querystring_parse)
    (replace_style_loader querystring_parse querystring_stringify chain)
  = tail (List.filter (is_style_loader querystring_parse) chain)
  ∧ ∀ style_loader,
      is_style_loader querystring_parse
        (replacement_of querystring_parse querystring_stringify style_loader)
      = false.
Proof. split; [apply filter_replace|apply replacement_not_style]. Qed.

(** X8: for a chain with at most one style loader the substitution
    leaves no style loader, and a second substitution changes nothing. *)
Theorem replace_style_loader_idempotent (chain : list (loader_entry Query)) :
  (length (List.filter (is_style_loader querystring_parse) chain) ≤ 1)%nat →
  Forall (λ loader, is_style_loader querystring_parse loader = false) (replace chain)
  ∧ replace (replace chain) = replace chain.
Proof.
  intros Hone.
  assert (Forall not_style (replace chain)) as Hnone.
  { apply filter_nil_Forall. rewrite filter_replace.
    destruct (List.filter is_style chain) as [|s [|s' rest]]; [done..|].
    cbn [length] in Hone. lia. }
  split; [done|]. by apply replace_none.
Qed.

(** X9: the name that [parse_loader] gives for a loader string has no
    question mark; the string is this name and there is no query, or the
    string is this name followed by a question mark and more and there is
    a query. *)
Theorem parse_loader_string_name (s : string) :
  let info := parse_loader querystring_parse (LoaderString s) in
  ("?"%char ∉ chars (name info))
  ∧ ((s = name info ∧ query info = None)
     ∨ (∃ rest, s = name info +:+ "?" +:+ rest) ∧ is_Some (query info)).
Proof.
  cbv zeta. rewrite parse_loader_string.
  destruct (decide ("?"%char ∈ chars s)) as [Hin|Hin]; cbn [name query].
  - split; [apply before_free|]. right. split; [|by eexists].
    apply before_occurs in Hin as [rest Hrest]. by exists rest.
  - split; [done|]. by left.
Qed.

(** X10: for a name without question mark, stringifying a loader and
    parsing the string gives the name back, and gives the whole loader
    back when it has no query. *)
Theorem parse_stringify_name (info : loader_info Query) :
  "?"%char ∉ chars (name info) →
  let s := stringify_loader querystring_stringify info in
  name (parse_loader querystring_parse (LoaderString s)) = name info
  ∧ (query info = None → parse_loader querystring_parse (LoaderString s) = info).
Proof.
  intros Hfree. cbv zeta. destruct info as [n [q|]]; cbn [name query] in *.
  - rewrite parse_stringify. cbn [name]. split; [by apply before_notin|done].
  - unfold stringify_loader. cbn [name query]. rewrite append_nil_r.
    rewrite parse_loader_string, decide_False by done. done.
Qed.

(** X11: a module loader with a [loader] string that does not contain
    the marker of the extract text plugin, and without [loaders], is
    converted into one with [loaders] and without [loader]: the pieces of
    the string between the exclamation marks, in order; joined with
    exclamation marks they give the string back, none of them contains an
    exclamation mark, and they are one more than the exclamation marks of
    the string. The other fields stay. *)
Theorem convert_loader_splits (l : module_loader Query) (s : string) :
  loaders l = None →
  loader l = Some s →
  s ≠ "" →
  ¬ contains s "extract-text-webpack-plugin/loader.js" →
  ∃ pieces,
    convert_loader l = Ok (Next {| loader := None;
                                   loaders := Some (List.map LoaderString pieces);
                                   other_fields := other_fields l |})
    ∧ array_join pieces "!" = s
    ∧ Forall (λ piece, "!"%char ∉ chars piece) pieces
    ∧ length pieces = S (length (List.filter (Ascii.eqb "!") (chars s))).
Proof.
  intros Hnone Hs Hne Hmarker. exists (split s "!"). split_and!.
  - unfold convert_loader. rewrite Hnone, Hs.
    destruct s as [|a s]; [done|].
    destruct (0 <=? _) eqn:Hfound; [|done].
    apply Z.leb_le, indexOf_nonneg_iff in Hfound. done.
  - unfold array_join, split. by rewrite join_split_from.
  - apply split_from_free, not_elem_of_nil.
  - apply length_split_from.
Qed.

(** X12: one iteration of the loop over the module loaders throws
    exactly when the module loader has no [loaders] and no non-empty
    [loader], and then with the message of line 79; in particular the
    [filter] of line 96 is never called on [undefined]. *)
Theorem tune_loader_throws_iff (l : module_loader Query) (message : string) :
  tune_loader querystring_parse querystring_stringify l = Throw message ↔
  loaders l = None ∧ (loader l = None ∨ loader l = Some "")
  ∧ message = "No webpack loader specified for this `module.loaders` element".
Proof.
  rewrite tune_throws_iff. unfold without_loader, no_loader_message. tauto.
Qed.

(** X13: the loop over the module loaders throws exactly when one of
    them has no [loaders] and no non-empty [loader]; when it does not
    throw, the result has one module loader for each one of the input, in
    order, each the result of the iteration on it and with the other
    fields as they were. *)
Theorem tune_loaders_outcome (ls : list (module_loader Query)) :
  (∀ message,
     tune_all ls = Throw message ↔
     Exists without_loader ls
     ∧ message = "No webpack loader specified for this `module.loaders` element")
  ∧ (∀ ls',
       tune_all ls = Ok ls' ↔
       Forall2 (λ l l', tune l = Ok l' ∧ other_fields l' = other_fields l) ls ls')
  ∧ (¬ Exists without_loader ls →
     ∃ ls', tune_all ls = Ok ls' ∧ length ls' = length ls).
Proof.
  assert (∀ ls',
            tune_all ls = Ok ls' ↔
            Forall2 (λ l l', tune l = Ok l' ∧ other_fields l' = other_fields l) ls ls')
    as Hok.
  { intros ls'. unfold tune_loaders. rewrite for_each_Ok. split.
    - intros Hall. eapply Forall2_impl; [exact Hall|].
      intros l l' Hl. split; [done|]. by eapply tune_other_fields.
    - intros Hall. eapply Forall2_impl; [exact Hall|]. by intros l l' [Hl _]. }
  split_and!; [apply tune_all_throws_iff|done|].
  intros Hgood. destruct (tune_all ls) as [ls'|m] eqn:Hall.
  - exists ls'. split; [done|]. symmetry.
    eapply Forall2_length, (proj1 (Hok ls')). done.
  - apply tune_all_throws_iff in Hall as [Hbad _]. done.
Qed.

End LoadersMore.

(** ** [configuration] *)

Section ConfigurationMore.

Context {Query RegExp Other External Instance : Type} `{EqDecision Query}.
Context (validForNewPackages : string → bool).
Context (regexp_test : RegExp → string → bool).
Context (template_text : Other → string).
Context (querystring_parse : string → Query).
Context (querystring_stringify : Query → string).
Context (path_basename : string → string → string).
Context (path_extname : string → string).
Context (path_dirname : string → string).
Context (path_resolve : string → string → string).

Local Abbreviation tune_configuration :=
  (configuration (External:=External) (Instance:=Instance)
     validForNewPackages regexp_test template_text
     querystring_parse querystring_stringify
     path_basename path_extname path_dirname path_resolve).
Local Abbreviation classify :=
  (is_external validForNewPackages regexp_test template_text).
Local Abbreviation tune_all :=
  (tune_loaders querystring_parse querystring_stringify).
Local Abbreviation config := (configuration_object Query External Instance).

(** The result of [configuration] when it does not throw. *)
Lemma configuration_Ok (c c' : config) (st : universal_settings RegExp Other) :
  tune_configuration c st = Ok c' →
  ∃ the_context ls',
    context c = Some the_context ∧ the_context ≠ ""
    ∧ tune_all (module_loaders c) = Ok ls'
    ∧ module_loaders c' = ls'
    ∧ externals c' =
        Some (default [] (externals c)
                ++ [ExternalsFunction
                      (externals_function validForNewPackages regexp_test
                         template_text (for_is_external c) (for_externals st))])
    ∧ plugins c' =
        Some (List.filter kept_plugin (default [] (plugins c))
                ++ [NewLimitChunkCountPlugin 1]).
Proof.
  unfold configuration.
  destruct (context c) as [[|a the_context]|]; [done| |done].
  destruct (tune_all (module_loaders c)) as [ls'|m]; [|done].
  cbn [bind]. intros [= <-]. by exists (String a the_context), ls'.
Qed.



(** X14: [configuration] throws exactly when [context] is absent or
    empty, with the message of line 14, or else when a module loader has
    no [loaders] and no non-empty [loader], with the message of line 79;
    the missing [context] is reported first. In every other case a
    configuration is returned. *)
Theorem configuration_throws_iff (c : config) (st : universal_settings RegExp Other) :
  (∀ message,
     tune_configuration c st = Throw message ↔
     ((context c = None ∨ context c = Some "") ∧ message = context_is_missing)
     ∨ ((∃ the_context, context c = Some the_context ∧ the_context ≠ "")
        ∧ Exists without_loader (module_loaders c)
        ∧ message = "No webpack loader specified for this `module.loaders` element"))
  ∧ ((∃ the_context, context c = Some the_context ∧ the_context ≠ "") →
     ¬ Exists without_loader (module_loaders c) →
     ∃ c', tune_configuration c st = Ok c').
Proof.
  unfold configuration.
  destruct (context c) as [[|a the_context]|] eqn:Hcontext.
  - split.
    + intros message. split.
      * intros [= <-]. left. by split; [right|].
      * intros [[_ ->]|[(? & [= <-] & ?) _]]; done.
    + by intros (? & [= <-] & ?).
  - destruct (tune_all (module_loaders c)) as [ls'|m] eqn:Hall; cbn [bind].
    + split; [|by eexists].
      intros message. split; [done|].
      intros [[[?|?] _]|(_ & Hbad & ->)]; [done..|].
      pose proof (proj2 (tune_all_throws_iff querystring_parse querystring_stringify
                           (module_loaders c) no_loader_message)
                    (conj Hbad eq_refl)). congruence.
    + apply tune_all_throws_iff in Hall as [Hbad ->]. split.
      * intros message. split.
        -- intros [= <-]. right. split_and!; [by eexists|done..].
        -- intros [[[?|?] _]|(_ & _ & ->)]; done.
      * by intros _ ?.
  - split.
    + intros message. split.
      * intros [= <-]. left. by split; [left|].
      * intros [[_ ->]|[(? & [=] & ?) _]]; done.
    + by intros (? & [=] & ?).
Qed.


(** X16: in the configuration that is returned, [externals] is the
    array of the input (empty when absent) followed by one function. For
    every context and request this function calls [callback(null,
    request)], with the request as it is, exactly when [is_external]
    answers [true] for the alias table of the input and the settings;
    it calls [callback()] exactly when the answer is [false]; and it
    throws what [is_external] throws. *)
Theorem configuration_externals (c c' : config) (st : universal_settings RegExp Other) :
  tune_configuration c st = Ok c' →
  ∃ f,
    externals c' = Some (default [] (externals c) ++ [ExternalsFunction f])
    ∧ ∀ the_context request,
        (∀ answer,
           f the_context request = Ok (callback_null_request answer) ↔
           answer = request
           ∧ classify request (for_is_external c) (for_externals st) = Ok true)
        ∧ (f the_context request = Ok callback_no_arguments ↔
           classify request (for_is_external c) (for_externals st) = Ok false)
        ∧ (∀ message,
             f the_context request = Throw message ↔
             classify request (for_is_external c) (for_externals st) = Throw message).
Proof.
  intros (_ & _ & _ & _ & _ & _ & Hexternals & _)%configuration_Ok.
  eexists. split; [exact Hexternals|].
  intros the_context request. unfold externals_function.
  destruct (classify request (for_is_external c) (for_externals st)) as [[|]|m];
    cbn [bind]; split_and!; try intros ?; split; try done.
  - by intros [= <-].
  - by intros [-> _].
  - by intros [_ ?].
  - by intros [_ ?].
  - by intros [= <-].
  - by intros [= <-].
Qed.

End ConfigurationMore.

(** ** The further properties on sample inputs *)

Lemma sample_configuration_is_tuned :
  SampleConfiguration.tune SampleConfiguration.client SampleConfiguration.settings
  = Ok (SampleConfiguration.server
          [GivenExternal "jquery";
           ExternalsFunction SampleConfiguration.the_function]).
Proof. reflexivity. Qed.

Lemma is_external_order_independent_witness :
  let patterns : list (exclusion_pattern string Z) :=
    [PString "react"; PRegExp "lodash"] in
  let patterns' : list (exclusion_pattern string Z) :=
    [PRegExp "lodash"; PString "react"] in
  let classify :=
    is_external Sample.validForNewPackages Sample.regexp_test Sample.template_text in
  Forall string_or_regexp patterns
  ∧ patterns ≡ₚ patterns'
  ∧ classify "lodash/merge" {| resolve := None |}
      {| exclude_from_externals := Some patterns |} = Ok false
  ∧ classify "lodash/merge" {| resolve := None |}
      {| exclude_from_externals := Some patterns' |} = Ok false.
Proof.
  intros patterns patterns' classify.
  assert (Forall string_or_regexp patterns) as Htyped by (by repeat constructor).
  assert (patterns ≡ₚ patterns') as Hperm by apply Permutation_swap.
  split_and!; [done..| |done].
  etrans;
    [exact (proj2 (is_external_order_independent Sample.validForNewPackages
                     Sample.regexp_test Sample.template_text "lodash/merge"
                     {| resolve := None |} patterns patterns' Htyped Hperm))|].
  done.
Defined.

Lemma excluded_package_covers_its_paths_witness :
  let st : settings string Z :=
    {| exclude_from_externals := Some [PRegExp "webpack"; PString "lodash"] |} in
  package_name_of "lodash/fp/merge" = "lodash"
  ∧ Forall string_or_regexp [PRegExp (Other:=Z) "webpack"]
  ∧ is_external Sample.validForNewPackages Sample.regexp_test Sample.template_text
      "lodash/fp/merge" {| resolve := None |} st = Ok false.
Proof.
  intros st. split_and!; [done|by repeat constructor|].
  apply (excluded_package_covers_its_paths Sample.validForNewPackages
           Sample.regexp_test Sample.template_text "lodash/fp/merge"
           {| resolve := None |} st [PRegExp "webpack"] []); [done|].
  by repeat constructor.
Defined.

Lemma replace_style_loader_idempotent_witness :
  let chain : list (loader_entry Node.Query) :=
    [LoaderString "css-loader"; LoaderString "style-loader"; LoaderString "sass-loader"] in
  let replace :=
    replace_style_loader Node.querystring_parse Node.querystring_stringify in
  (length (List.filter (is_style_loader Node.querystring_parse) chain) ≤ 1)%nat
  ∧ replace chain
    = [LoaderString "css-loader"; LoaderString "fake-style-loader";
       LoaderString "sass-loader"]
  ∧ replace (replace chain) = replace chain.
Proof.
  intros chain replace.
  assert (length (List.filter (is_style_loader Node.querystring_parse) chain) ≤ 1)%nat
    as Hone by (vm_compute; lia).
  split_and!; [done..|].
  exact (proj2 (replace_style_loader_idempotent Node.querystring_parse
                  Node.querystring_stringify chain Hone)).
Defined.

Lemma parse_stringify_name_witness :
  let info : loader_info Node.Query := {| name := "css-loader"; query := None |} in
  ("?"%char ∉ JsString.chars (name info))
  ∧ stringify_loader Node.querystring_stringify info = "css-loader"
  ∧ parse_loader Node.querystring_parse
      (LoaderString (stringify_loader Node.querystring_stringify info)) = info.
Proof.
  intros info.
  assert ("?"%char ∉ JsString.chars (name info)) as Hfree by compute_done.
  split_and!; [done..|].
  by apply (parse_stringify_name Node.querystring_parse Node.querystring_stringify
              info Hfree).
Defined.

Lemma convert_loader_splits_witness :
  let s := "babel-loader!!eslint-loader?fix!" in
  let l : module_loader Node.Query :=
    {| loader := Some s; loaders := None; other_fields := {["test" := "js"]} |} in
  ¬ contains s "extract-text-webpack-plugin/loader.js"
  ∧ JsString.split s "!" = ["babel-loader"; ""; "eslint-loader?fix"; ""]
  ∧ ∃ pieces,
      convert_loader l
      = Ok (Next {| loader := None;
                    loaders := Some (List.map LoaderString pieces);
                    other_fields := {["test" := "js"]} |})
      ∧ array_join pieces "!" = s
      ∧ Forall (λ piece, "!"%char ∉ JsString.chars piece) pieces
      ∧ length pieces = 4%nat.
Proof.
  intros s l.
  assert (¬ contains s "extract-text-webpack-plugin/loader.js") as Hmarker.
  { intros Hc%indexOf_nonneg_iff. by vm_compute in Hc. }
  split_and!; [done..|].
  exact (convert_loader_splits l s eq_refl eq_refl ltac:(done) Hmarker).
Defined.


Lemma configuration_externals_witness :
  SampleConfiguration.tune SampleConfiguration.client SampleConfiguration.settings
  = Ok (SampleConfiguration.server
          [GivenExternal "jquery";
           ExternalsFunction SampleConfiguration.the_function])
  ∧ SampleConfiguration.the_function "/project/src" "express/lib/router"
    = Ok (callback_null_request "express/lib/router")
  ∧ SampleConfiguration.the_function "/project/src" "react/addons"
    = Ok callback_no_arguments
  ∧ SampleConfiguration.the_function "/project/src" "lodash/merge"
    = Ok callback_no_arguments
  ∧ SampleConfiguration.the_function "/project/src" "./pages/home"
    = Ok callback_no_arguments.
Proof.
  destruct (configuration_externals Sample.validForNewPackages Sample.regexp_test
              Sample.template_text Node.querystring_parse Node.querystring_stringify
              SamplePath.basename SamplePath.extname SamplePath.dirname
              SamplePath.resolve
              SampleConfiguration.client _ SampleConfiguration.settings eq_refl)
    as (f & Hf & Hcalls).
  apply (inj Some), app_inj_2 in Hf as [_ [= <-]]; [|done].
  split_and!; [reflexivity|..].
  - by apply (proj1 (Hcalls "/project/src" "express/lib/router")).
  - by apply (proj1 (proj2 (Hcalls "/project/src" "react/addons"))).
  - by apply (proj1 (proj2 (Hcalls "/project/src" "lodash/merge"))).
  - by apply (proj1 (proj2 (Hcalls "/project/src" "./pages/home"))).
Defined.

Lemma is_external_true_iff_witness :
  let c := {| resolve := Some {| alias := Some {["react" := "preact-compat"]} |} |} in
  let st : settings string Z :=
    {| exclude_from_externals := Some [PString "lodash"; PRegExp "webpack"] |} in
  Sample.validForNewPackages (package_name_of "express/lib/router") = true
  ∧ ¬ aliased c (package_name_of "express/lib/router")
  ∧ Forall (passed_over Sample.regexp_test "express/lib/router")
      [PString (Other:=Z) "lodash"; PRegExp "webpack"]
  ∧ is_external Sample.validForNewPackages Sample.regexp_test Sample.template_text
      "express/lib/router" c st = Ok true.
Proof.
  intros c st.
  assert (¬ aliased c (package_name_of "express/lib/router")) as Hna.
  { intros (r & table & target & [= <-] & [= <-] & Hk). by vm_compute in Hk. }
  assert (Forall (passed_over Sample.regexp_test "express/lib/router")
            [PString (Other:=Z) "lodash"; PRegExp "webpack"]) as Hpassed.
  { repeat constructor;
      try (rewrite <-(string_pattern_test Sample.regexp_test)); by vm_compute. }
  split_and!; [done..|].
  apply (is_external_true_iff Sample.validForNewPackages Sample.regexp_test
           Sample.template_text "express/lib/router" c st).
  split_and!; [done..|]. by intros ? [= <-].
Defined.

Lemma is_external_false_iff_witness :
  let c := {| resolve := None |} in
  let st : settings string Z :=
    {| exclude_from_externals := Some [PRegExp "webpack"; PString "lodash"; POther 5] |} in
  Forall (passed_over Sample.regexp_test "lodash/merge") [PRegExp (Other:=Z) "webpack"]
  ∧ pattern_matches Sample.regexp_test "lodash/merge" (PString (Other:=Z) "lodash")
  ∧ is_external Sample.validForNewPackages Sample.regexp_test Sample.template_text
      "lodash/merge" c st = Ok false.
Proof.
  intros c st.
  assert (Forall (passed_over Sample.regexp_test "lodash/merge")
            [PRegExp (Other:=Z) "webpack"]) as Hpassed.
  { repeat constructor. by vm_compute. }
  assert (pattern_matches Sample.regexp_test "lodash/merge"
            (PString (Other:=Z) "lodash")) as Hm.
  { right. by exists "merge". }
  split_and!; [done..|].
  apply (is_external_false_iff Sample.validForNewPackages Sample.regexp_test
           Sample.template_text "lodash/merge" c st).
  right; right. by exists [PRegExp "webpack"], (PString "lodash"), [POther 5].
Defined.

Lemma package_name_is_request_up_to_slash_witness :
  is_package_name_of "lodash" "lodash/fp/merge"
  ∧ package_name_of "lodash/fp/merge" = "lodash".
Proof.
  assert (is_package_name_of "lodash" "lodash/fp/merge") as Hname.
  { split; [compute_done|right; by exists "fp/merge"]. }
  split; [done|]. symmetry.
  by apply (proj1 (proj2 (package_name_is_request_up_to_slash "lodash/fp/merge"))).
Defined.

Lemma tune_loader_throws_iff_witness :
  let l : module_loader Node.Query :=
    {| loader := Some ""; loaders := None; other_fields := {["test" := "css"]} |} in
  tune_loader Node.querystring_parse Node.querystring_stringify l
  = Throw "No webpack loader specified for this `module.loaders` element".
Proof.
  intros l.
  apply (tune_loader_throws_iff Node.querystring_parse Node.querystring_stringify l).
  split_and!; [done|by right|done].
Defined.

Lemma tune_loaders_outcome_witness :
  let good : module_loader Node.Query :=
    {| loader := Some "style!css"; loaders := None; other_fields := ∅ |} in
  let bad : module_loader Node.Query :=
    {| loader := None; loaders := None; other_fields := ∅ |} in
  without_loader bad
  ∧ tune_loaders Node.querystring_parse Node.querystring_stringify [good; bad; good]
    = Throw "No webpack loader specified for this `module.loaders` element"
  ∧ ∃ ls', tune_loaders Node.querystring_parse Node.querystring_stringify [good; good]
           = Ok ls' ∧ length ls' = 2%nat.
Proof.
  intros good bad.
  assert (without_loader bad) as Hbad by (split; [done|by left]).
  assert (¬ Exists without_loader [good; good]) as Hgood.
  { intros Hex. apply Exists_exists in Hex as (l & Hl & [_ Hl']).
    repeat (apply elem_of_cons in Hl as [->|Hl]; [by destruct Hl'|]).
    by apply elem_of_nil in Hl. }
  split_and!; [done| |].
  - apply (proj1 (tune_loaders_outcome Node.querystring_parse
                    Node.querystring_stringify [good; bad; good])).
    split; [|done]. by apply Exists_cons_tl, Exists_cons_hd.
  - by apply (proj2 (proj2 (tune_loaders_outcome Node.querystring_parse
                              Node.querystring_stringify [good; good]))).
Defined.

Lemma configuration_throws_iff_witness :
  let without_context : configuration_object Node.Query string unit :=
    {| context := None;
       entry := entry SampleConfiguration.client;
       target := None;
       output := output SampleConfiguration.client;
       devtool := None;
       externals := None;
       module_loaders := [ {| loader := None; loaders := None; other_fields := ∅ |} ];
       plugins := None;
       for_is_external := {| resolve := None |} |} in
  SampleConfiguration.tune without_context SampleConfiguration.settings
  = Throw context_is_missing
  ∧ ∃ c', SampleConfiguration.tune SampleConfiguration.client
            SampleConfiguration.settings = Ok c'.
Proof.
  intros without_context. split.
  - apply (proj1 (configuration_throws_iff Sample.validForNewPackages
                    Sample.regexp_test Sample.template_text Node.querystring_parse
                    Node.querystring_stringify SamplePath.basename SamplePath.extname
                    SamplePath.dirname SamplePath.resolve
                    without_context SampleConfiguration.settings)).
    left. by split; [left|].
  - apply (proj2 (configuration_throws_iff Sample.validForNewPackages
                    Sample.regexp_test Sample.template_text Node.querystring_parse
                    Node.querystring_stringify SamplePath.basename SamplePath.extname
                    SamplePath.dirname SamplePath.resolve
                    SampleConfiguration.client SampleConfiguration.settings)).
    + by exists "/project".
    + intros Hex. apply Exists_exists in Hex as (l & Hl & [Hnone Hl']).
      repeat (apply elem_of_cons in Hl as [->|Hl]; [by destruct Hl'|]).
      by apply elem_of_nil in Hl.
Defined.
